(** * utilities-quotes: the weather-driven rate calculator and its weather client

    A shallow embedding of the rate service of the repository (the file with
    [fetchWeather], [calculateRates] and the [/api/rates] handlers) and of
    its quotes service, and the properties its specification states about
    the rate service.

    - JavaScript numbers are IEEE 754 binary64 values: [SpecFloat] with
      [prec = 53] and [emax = 1024], every operation rounding to nearest,
      ties to even.
    - JavaScript strings are sequences of UTF-16 code units.
    - The TypeScript interfaces [WeatherData] and [UtilityRate] are records;
      the module [RunTime] has the same code on the values that reach it
      once the types are erased.
    - [try]/[catch] is a result type; the network is an oracle from URLs to
      what the transport delivers. *)

From Stdlib Require Import ZArith NArith List Bool String Ascii Lia.
From Stdlib Require Import SpecFloat QArith Qround Lqa DecimalString.
Import ListNotations.

Open Scope Z_scope.

(* ================================================================= *)
(** ** Numbers *)

Module Num.

Definition prec : Z := 53.
Definition emax : Z := 1024.

Definition number := spec_float.

(** The values a JavaScript number can take. *)
Definition valid (x : number) : bool := valid_binary prec emax x.

Definition is_finite (x : number) : bool :=
  match x with
  | S754_zero _ | S754_finite _ _ _ => true
  | _ => false
  end.

(** An integer literal, [85]. *)
Definition int (z : Z) : number := binary_normalize prec emax z 0 false.

(** An integer as an unrounded operand. *)
Definition exact (z : Z) : number :=
  match z with
  | Z0 => S754_zero false
  | Zpos p => S754_finite false p 0
  | Zneg p => S754_finite true p 0
  end.

(** A decimal literal [m / 10^k], as [0.12 = dec 12 2]: the binary64
    value nearest to the decimal, which is what one correctly rounded
    division of the two integers gives. *)
Definition dec (m : Z) (k : Z) : number :=
  SFdiv prec emax (exact m) (exact (10 ^ k)).

Definition add : number -> number -> number := SFadd prec emax.
Definition mul : number -> number -> number := SFmul prec emax.
Definition div : number -> number -> number := SFdiv prec emax.
Definition neg : number -> number := SFopp.

(** [x < y], [x > y], [x >= y], [x <= y]: false as soon as one side is NaN. *)
Definition lt (x y : number) : bool := SFltb x y.
Definition gt (x y : number) : bool := SFltb y x.
Definition ge (x y : number) : bool := SFleb y x.
Definition le (x y : number) : bool := SFleb x y.

(** [Math.round]: the nearest integer, a tie going towards +Infinity;
    NaN, the infinities, the zeros and the integers are returned as they
    are, and a result of zero keeps the sign of the argument. *)
Definition Math_round (x : number) : number :=
  match x with
  | S754_finite s m e =>
      if 0 <=? e then x
      else
        let n := (2 * cond_Zopp s (Zpos m) + 2 ^ (- e)) / 2 ^ (1 - e) in
        if n =? 0 then S754_zero s else int n
  | _ => x
  end.

(** The rational a finite number stands for. *)
Definition to_Q (x : number) : option Q :=
  match x with
  | S754_zero _ => Some 0%Q
  | S754_finite s m e =>
      Some (if 0 <=? e then inject_Z (cond_Zopp s (Zpos m) * 2 ^ e)
            else Qmake (cond_Zopp s (Zpos m)) (Z.to_pos (2 ^ (- e))))
  | _ => None
  end.

End Num.

Declare Scope num_scope.
Delimit Scope num_scope with num.
Bind Scope num_scope with Num.number.
Infix "+" := Num.add : num_scope.
Infix "*" := Num.mul : num_scope.
Infix "/" := Num.div : num_scope.
Infix "<?" := Num.lt : num_scope.
Infix ">?" := Num.gt : num_scope.
Infix ">=?" := Num.ge : num_scope.
Infix "<=?" := Num.le : num_scope.
Notation "- x" := (Num.neg x) : num_scope.

(* ================================================================= *)
(** ** Strings *)

Module Str.

Definition code_unit := N.
Definition jsstring := list code_unit.

(** A string literal of the source; the literals of this program are ASCII. *)
Definition str (s : string) : jsstring :=
  List.map N_of_ascii (list_ascii_of_string s).

Definition eqb (s t : jsstring) : bool :=
  if list_eq_dec N.eq_dec s t then true else false.

Fixpoint startsWith (s t : jsstring) : bool :=
  match t, s with
  | [], _ => true
  | _ :: _, [] => false
  | b :: t', a :: s' => N.eqb a b && startsWith s' t'
  end.

(** [s.includes(t)]: [t] occurs in [s] as a run of consecutive code units. *)
Fixpoint includes (s t : jsstring) : bool :=
  startsWith s t ||
  match s with
  | [] => false
  | _ :: s' => includes s' t
  end.

(** Lower-casing of one code unit. ASCII and Latin-1 capitals move by
    [0x20]; U+0130 becomes [i] followed by U+0307 and the Kelvin sign
    U+212A becomes [k], the two characters outside ASCII whose lower case
    holds an ASCII letter. Every other code unit is kept: the Unicode
    case tables beyond Latin-1 are not part of this development, and they
    neither produce nor consume an ASCII letter. *)
Definition lower_unit (c : code_unit) : list code_unit :=
  (if (65 <=? c) && (c <=? 90) then [c + 32]
   else if (192 <=? c) && (c <=? 222) && negb (c =? 215) then [c + 32]
   else if c =? 304 then [105; 775]
   else if c =? 8490 then [107]
   else [c])%N.

Definition toLowerCase (s : jsstring) : jsstring := flat_map lower_unit s.

End Str.

Import Str.

(* ================================================================= *)
(** ** The data model *)

Module Data.

Record UtilityRate := {
  utility : jsstring;
  baseRate : Num.number;
  unit : jsstring;
  weatherAdjustment : Num.number;
  adjustedRate : Num.number;
  reason : jsstring;
}.

Record WeatherData := {
  city : jsstring;
  temperature : Num.number;
  conditions : jsstring;
  humidity : Num.number;
}.

Record BaseRate := { rate : Num.number; rate_unit : jsstring }.

End Data.
Import Data.

Module baseRates.
Definition electricity := {| rate := Num.dec 12 2;  rate_unit := str "kWh" |}.
Definition naturalGas  := {| rate := Num.dec 105 2; rate_unit := str "therm" |}.
Definition water       := {| rate := Num.dec 4 3;   rate_unit := str "gallon" |}.
Definition solar       := {| rate := Num.dec 8 2;   rate_unit := str "kWh" |}.
End baseRates.

(* ================================================================= *)
(** ** calculateRates *)

(** [rates.push(q)] *)
Definition push {A} (rates : list A) (q : A) : list A := rates ++ [q].

Definition calculateRates (weather : WeatherData) : list UtilityRate :=
  let rates : list UtilityRate := [] in
  let temp := temperature weather in
  let conditions := toLowerCase (conditions weather) in
  let humidity := humidity weather in
  (* Electricity *)
  let '(elecAdjust, elecReason) :=
    (if temp >? Num.int 85 then
       (Num.dec 4 2, str "High cooling demand due to heat")
     else if temp <? Num.int 40 then
       (Num.dec 3 2, str "Increased heating demand")
     else if (temp >=? Num.int 65) && (temp <=? Num.int 75) then
       (- Num.dec 2 2, str "Low HVAC demand - mild weather")
     else (Num.int 0, str "Standard rate"))%num in
  let rates := push rates {|
    utility := str "Electricity";
    baseRate := rate baseRates.electricity;
    unit := rate_unit baseRates.electricity;
    weatherAdjustment := elecAdjust;
    adjustedRate :=
      (Num.Math_round ((rate baseRates.electricity + elecAdjust) * Num.int 1000)
       / Num.int 1000)%num;
    reason := elecReason |} in
  (* Natural Gas *)
  let '(gasAdjust, gasReason) :=
    (if temp <? Num.int 32 then
       (Num.dec 45 2, str "Peak heating season - extreme cold")
     else if temp <? Num.int 50 then
       (Num.dec 25 2, str "Heating demand increased")
     else if temp >? Num.int 80 then
       (- Num.dec 15 2, str "Reduced heating demand")
     else (Num.int 0, str "Standard rate"))%num in
  let rates := push rates {|
    utility := str "Natural Gas";
    baseRate := rate baseRates.naturalGas;
    unit := rate_unit baseRates.naturalGas;
    weatherAdjustment := gasAdjust;
    adjustedRate :=
      (Num.Math_round ((rate baseRates.naturalGas + gasAdjust) * Num.int 100)
       / Num.int 100)%num;
    reason := gasReason |} in
  (* Water *)
  let '(waterAdjust, waterReason) :=
    (if (humidity <? Num.int 30) && (temp >? Num.int 80) then
       (Num.dec 2 3, str "Drought surcharge - conservation pricing")
     else if includes conditions (str "rain") then
       (- Num.dec 1 3, str "Reduced irrigation demand")
     else (Num.int 0, str "Standard rate"))%num in
  let rates := push rates {|
    utility := str "Water";
    baseRate := rate baseRates.water;
    unit := rate_unit baseRates.water;
    weatherAdjustment := waterAdjust;
    adjustedRate :=
      (Num.Math_round ((rate baseRates.water + waterAdjust) * Num.int 10000)
       / Num.int 10000)%num;
    reason := waterReason |} in
  (* Solar Buyback *)
  let '(solarAdjust, solarReason) :=
    (if includes conditions (str "sunny") || includes conditions (str "clear") then
       (Num.dec 3 2, str "Peak solar production - premium buyback")
     else if includes conditions (str "cloud") || includes conditions (str "overcast") then
       (- Num.dec 2 2, str "Reduced solar output")
     else if includes conditions (str "rain") || includes conditions (str "storm") then
       (- Num.dec 4 2, str "Minimal solar production")
     else (Num.int 0, str "Standard buyback rate"))%num in
  let rates := push rates {|
    utility := str "Solar Buyback";
    baseRate := rate baseRates.solar;
    unit := rate_unit baseRates.solar;
    weatherAdjustment := solarAdjust;
    adjustedRate :=
      (Num.Math_round ((rate baseRates.solar + solarAdjust) * Num.int 1000)
       / Num.int 1000)%num;
    reason := solarReason |} in
  rates.

(* ================================================================= *)
(** ** JavaScript values and JSON.parse *)

#[local] Set Warnings "-register-all".

Inductive value :=
| VUndefined
| VNull
| VBool (b : bool)
| VNumber (x : Num.number)
| VString (s : jsstring)
| VArray (elems : list value)
| VObject (props : list (jsstring * value)).

(** What a JavaScript computation can throw or reject with.
    [Error_new v] is the object [new Error(v)]; its message is the string
    conversion of [v]. *)
Inductive exn :=
| Error_new (arg : value)
| SyntaxError
| TypeError
| TransportError (code : jsstring).

Inductive result (A : Type) :=
| Ok (a : A)
| Throw (e : exn).
Arguments Ok {A} a.
Arguments Throw {A} e.

Definition bind {A B} (r : result A) (k : A -> result B) : result B :=
  match r with
  | Ok a => k a
  | Throw e => Throw e
  end.

Notation "x <- r ;; k" := (bind r (fun x => k))
  (at level 61, r at next level, right associativity).

(** [e.message] of an [Error] built from a string. *)
Definition message (e : exn) : option jsstring :=
  match e with
  | Error_new (VString s) => Some s
  | _ => None
  end.

Module JSON.

Inductive token :=
| LBrace | RBrace | LBracket | RBracket | Colon | Comma
| TString (s : jsstring)
| TNumber (x : Num.number)
| TTrue | TFalse | TNull.

Definition is_ws (c : code_unit) : bool :=
  ((c =? 32) || (c =? 9) || (c =? 10) || (c =? 13))%N.

Definition punct (c : code_unit) : option token :=
  (if c =? 123 then Some LBrace
   else if c =? 125 then Some RBrace
   else if c =? 91 then Some LBracket
   else if c =? 93 then Some RBracket
   else if c =? 58 then Some Colon
   else if c =? 44 then Some Comma
   else None)%N.

Definition is_punct (c : code_unit) : bool :=
  match punct c with Some _ => true | None => false end.

Definition is_digit (c : code_unit) : bool := ((48 <=? c) && (c <=? 57))%N.

Definition hex_digit (c : code_unit) : option N :=
  (if (48 <=? c) && (c <=? 57) then Some (c - 48)
   else if (97 <=? c) && (c <=? 102) then Some (c - 87)
   else if (65 <=? c) && (c <=? 70) then Some (c - 55)
   else None)%N.

(** *** Numbers *)

Fixpoint digits (s : jsstring) : jsstring * jsstring :=
  match s with
  | c :: s' =>
      if is_digit c then let '(ds, r) := digits s' in (c :: ds, r)
      else ([], s)
  | [] => ([], [])
  end.

Definition digits_value (ds : jsstring) : Z :=
  fold_left (fun acc c => 10 * acc + Z.of_N (c - 48)) ds 0.

(** The number nearest to [m * 10^e], for [0 <= m]. *)
Definition of_decimal (negative : bool) (m e : Z) : Num.number :=
  if m =? 0 then S754_zero negative
  else
    let x := if 0 <=? e then Num.int (m * 10 ^ e)
             else Num.div (Num.exact m) (Num.exact (10 ^ (- e))) in
    if negative then Num.neg x else x.

(** number = [ minus ] int [ frac ] [ exp ] *)
Definition number_of_word (w : jsstring) : option Num.number :=
  let '(negative, w) :=
    match w with
    | 45%N :: w' => (true, w')
    | _ => (false, w)
    end in
  let '(int_part, w) := digits w in
  match int_part with
  | [] => None
  | d :: more =>
      if (d =? 48)%N && negb (Nat.eqb (List.length more) 0) then None
      else
        let frac :=
          match w with
          | 46%N :: w' =>
              let '(ds, r) := digits w' in
              match ds with
              | [] => None
              | _ => Some (ds, r)
              end
          | _ => Some ([], w)
          end in
        match frac with
        | None => None
        | Some (frac_part, w) =>
            let expo :=
              match w with
              | c :: w' =>
                  if ((c =? 101) || (c =? 69))%N then
                    let '(minus, w'') :=
                      match w' with
                      | 45%N :: r => (true, r)
                      | 43%N :: r => (false, r)
                      | _ => (false, w')
                      end in
                    let '(ds, r) := digits w'' in
                    match ds, r with
                    | _ :: _, [] =>
                        Some (if minus then - digits_value ds else digits_value ds)
                    | _, _ => None
                    end
                  else None
              | [] => Some 0
              end in
            match expo with
            | None => None
            | Some e =>
                Some (of_decimal negative
                        (digits_value (int_part ++ frac_part))
                        (e - Z.of_nat (List.length frac_part)))
            end
        end
  end.

(** A maximal run of characters that are neither white space, nor
    punctuation, nor a quote: it has to be one literal or one number. *)
Definition token_of_word (w : jsstring) : option token :=
  if Str.eqb w (str "true") then Some TTrue
  else if Str.eqb w (str "false") then Some TFalse
  else if Str.eqb w (str "null") then Some TNull
  else option_map TNumber (number_of_word w).

(** *** The lexer, one code unit at a time *)

Inductive lex_state :=
| LStart
| LWord (acc : jsstring)                 (* in a literal or a number *)
| LStr (acc : jsstring)                  (* in a string *)
| LEsc (acc : jsstring)                  (* after a backslash *)
| LHex (acc : jsstring) (k : nat) (v : N). (* after \u and [k] hex digits *)

Definition lex_start (toks : list token) (c : code_unit)
  : lex_state * list token :=
  if is_ws c then (LStart, toks)
  else match punct c with
       | Some t => (LStart, t :: toks)
       | None => if (c =? 34)%N then (LStr [], toks) else (LWord [c], toks)
       end.

Definition escape (c : code_unit) : option code_unit :=
  (if c =? 34 then Some 34
   else if c =? 92 then Some 92
   else if c =? 47 then Some 47
   else if c =? 98 then Some 8
   else if c =? 102 then Some 12
   else if c =? 110 then Some 10
   else if c =? 114 then Some 13
   else if c =? 116 then Some 9
   else None)%N.

Definition lex_step (st : lex_state) (toks : list token) (c : code_unit)
  : option (lex_state * list token) :=
  match st with
  | LStart => Some (lex_start toks c)
  | LWord acc =>
      if is_ws c || is_punct c || (c =? 34)%N then
        match token_of_word (rev acc) with
        | Some t => Some (lex_start (t :: toks) c)
        | None => None
        end
      else Some (LWord (c :: acc), toks)
  | LStr acc =>
      if (c =? 34)%N then Some (LStart, TString (rev acc) :: toks)
      else if (c =? 92)%N then Some (LEsc acc, toks)
      else if (c <? 32)%N then None
      else Some (LStr (c :: acc), toks)
  | LEsc acc =>
      if (c =? 117)%N then Some (LHex acc 0 0%N, toks)
      else match escape c with
           | Some c' => Some (LStr (c' :: acc), toks)
           | None => None
           end
  | LHex acc k v =>
      match hex_digit c with
      | Some d =>
          let v' := (16 * v + d)%N in
          if Nat.eqb k 3 then Some (LStr (v' :: acc), toks)
          else Some (LHex acc (S k) v', toks)
      | None => None
      end
  end.

Fixpoint lex (st : lex_state) (toks : list token) (s : jsstring)
  : option (list token) :=
  match s with
  | c :: s' =>
      match lex_step st toks c with
      | Some (st', toks') => lex st' toks' s'
      | None => None
      end
  | [] =>
      match st with
      | LStart => Some (rev toks)
      | LWord acc => option_map (fun t => rev (t :: toks)) (token_of_word (rev acc))
      | _ => None
      end
  end.

(** *** The parser, one token at a time, with the open containers on a stack *)

Inductive frame :=
| InArray (acc : list value)
| InObject (acc : list (jsstring * value)) (key : jsstring).

Inductive parse_state :=
| PValue (stk : list frame)           (* a value is due *)
| PArrayStart (stk : list frame)      (* after [ : a value or ] *)
| PArrayNext (acc : list value) (stk : list frame)  (* after an element: , or ] *)
| PObjectStart (stk : list frame)     (* after { : a key or } *)
| PKey (acc : list (jsstring * value)) (stk : list frame)  (* after , : a key *)
| PColon (acc : list (jsstring * value)) (key : jsstring) (stk : list frame)
| PObjectNext (acc : list (jsstring * value)) (stk : list frame) (* , or } *)
| PDone (v : value).

Definition complete (v : value) (stk : list frame) : parse_state :=
  match stk with
  | [] => PDone v
  | InArray acc :: stk' => PArrayNext (v :: acc) stk'
  | InObject acc key :: stk' => PObjectNext ((key, v) :: acc) stk'
  end.

Definition parse_value (stk : list frame) (t : token) : option parse_state :=
  match t with
  | TNull => Some (complete VNull stk)
  | TTrue => Some (complete (VBool true) stk)
  | TFalse => Some (complete (VBool false) stk)
  | TNumber x => Some (complete (VNumber x) stk)
  | TString s => Some (complete (VString s) stk)
  | LBracket => Some (PArrayStart stk)
  | LBrace => Some (PObjectStart stk)
  | _ => None
  end.

Definition parse_step (st : parse_state) (t : token) : option parse_state :=
  match st, t with
  | PValue stk, _ => parse_value stk t
  | PArrayStart stk, RBracket => Some (complete (VArray []) stk)
  | PArrayStart stk, _ => parse_value (InArray [] :: stk) t
  | PArrayNext acc stk, Comma => Some (PValue (InArray acc :: stk))
  | PArrayNext acc stk, RBracket => Some (complete (VArray (rev acc)) stk)
  | PObjectStart stk, RBrace => Some (complete (VObject []) stk)
  | PObjectStart stk, TString k => Some (PColon [] k stk)
  | PKey acc stk, TString k => Some (PColon acc k stk)
  | PColon acc k stk, Colon => Some (PValue (InObject acc k :: stk))
  | PObjectNext acc stk, Comma => Some (PKey acc stk)
  | PObjectNext acc stk, RBrace => Some (complete (VObject (rev acc)) stk)
  | _, _ => None
  end.

Fixpoint parse_tokens (st : parse_state) (ts : list token) : option value :=
  match ts with
  | t :: ts' =>
      match parse_step st t with
      | Some st' => parse_tokens st' ts'
      | None => None
      end
  | [] =>
      match st with
      | PDone v => Some v
      | _ => None
      end
  end.

(** [JSON.parse(text)]: the value, or a [SyntaxError]. The properties of
    an object are kept in the order of the text; reading a property takes
    the last one of that name. *)
Definition parse (text : jsstring) : result value :=
  match lex LStart [] text with
  | Some ts =>
      match parse_tokens (PValue []) ts with
      | Some v => Ok v
      | None => Throw SyntaxError
      end
  | None => Throw SyntaxError
  end.

End JSON.

(* ================================================================= *)
(** ** Property access, truthiness, string conversion *)

(** The own property [key] of an object built by [JSON.parse]. *)
Fixpoint own_property (key : jsstring) (props : list (jsstring * value))
  : option value :=
  match props with
  | [] => None
  | (k, v) :: rest =>
      match own_property key rest with
      | Some v' => Some v'
      | None => if Str.eqb k key then Some v else None
      end
  end.

(** [v.key] for a name that is no index, is not [length] and is defined by
    no built-in prototype, as [error] is: reading it from [null] or
    [undefined] throws, an object gives its own property, anything else
    gives [undefined]. *)
Definition Get (v : value) (key : jsstring) : result value :=
  match v with
  | VUndefined | VNull => Throw TypeError
  | VObject props =>
      Ok (match own_property key props with Some x => x | None => VUndefined end)
  | _ => Ok VUndefined
  end.

(** The condition of an [if]. *)
Definition ToBoolean (v : value) : bool :=
  match v with
  | VUndefined | VNull => false
  | VBool b => b
  | VNumber (S754_zero _) | VNumber S754_nan => false
  | VNumber _ => true
  | VString [] => false
  | VString _ => true
  | VArray _ | VObject _ => true
  end.

(** Whether converting [v] to a string throws. An object of [JSON.parse]
    holds no function: with an own [toString] neither that property nor
    [valueOf] gives a primitive. An array joins the conversions of its
    elements. *)
Fixpoint ToString_throws (v : value) : bool :=
  match v with
  | VObject props => existsb (fun kv => Str.eqb (fst kv) (str "toString")) props
  | VArray elems => existsb ToString_throws elems
  | _ => false
  end.

(** [new Error(v)] for a [v] other than [undefined]. *)
Definition new_Error (v : value) : result exn :=
  if ToString_throws v then Throw TypeError else Ok (Error_new v).

(* ================================================================= *)
(** ** fetchWeather *)

(** The state a promise ends in. Nothing but [resolve] and [reject] settles
    it: where neither is called it stays pending. *)
Inductive promise (A : Type) :=
| Fulfilled (a : A)
| Rejected (e : exn)
| Pending.
Arguments Fulfilled {A} a.
Arguments Rejected {A} e.
Arguments Pending {A}.

(** What [http.get] delivers for a URL: an ['error'] event on the request;
    or a response whose body arrives in chunks before ['end'], each chunk
    as [data += chunk] appends it, which is the text the chunk decodes to
    on its own; or neither event, when the response stalls or is cut off
    before its end. *)
Inductive transport :=
| Failed (e : exn)
| Delivered (chunks : list jsstring)
| Stalled.

Definition InvalidResponseError : exn :=
  Error_new (VString (str "Invalid response from weather service")).

(** The ['end'] listener: the [try] block settles the promise, and whatever
    it throws is caught. *)
Definition on_end (data : jsstring) : promise value :=
  match
    (parsed <- JSON.parse data ;;
     error <- Get parsed (str "error") ;;
     if ToBoolean error then
       e <- new_Error error ;; Ok (Rejected e)
     else Ok (Fulfilled parsed))
  with
  | Ok outcome => outcome
  | Throw _ => Rejected InvalidResponseError
  end.

(** [process.env.WEATHER_SERVICE_URL || 'http://utilities-weather:3001'] *)
Definition WEATHER_SERVICE (env : option jsstring) : jsstring :=
  match env with
  | Some (c :: url) => c :: url
  | _ => str "http://utilities-weather:3001"
  end.

Section Client.

Variable WEATHER_SERVICE_URL : option jsstring.
Variable http_get : jsstring -> transport.

Definition fetchWeather (city : jsstring) : promise value :=
  match http_get (WEATHER_SERVICE WEATHER_SERVICE_URL
                  ++ str "/api/weather/" ++ city) with
  | Failed e => Rejected e
  | Delivered chunks =>
      let data := fold_left (fun data chunk => data ++ chunk) chunks [] in
      on_end data
  | Stalled => Pending
  end.

End Client.

(* ================================================================= *)
(** ** Responses, and the world a handler runs in *)

Record Response (A : Type) := {
  status : Z;
  body : A;
}.
Arguments status {A} r.
Arguments body {A} r.

(** The world a handler runs in: the cities asked of the weather service so
    far, oldest first, and the clock. *)
Record World := {
  requested : list jsstring;
  clock : jsstring;
}.

Definition IO (A : Type) := World -> result A * World.

Definition ret {A} (a : A) : IO A := fun w => (Ok a, w).

Definition io_bind {A B} (m : IO A) (k : A -> IO B) : IO B :=
  fun w =>
    match m w with
    | (Ok a, w') => k a w'
    | (Throw e, w') => (Throw e, w')
    end.

Notation "x <<- m ;; k" := (io_bind m (fun x => k))
  (at level 61, m at next level, right associativity).

(** [new Date().toISOString()] *)
Definition Date_toISOString : IO jsstring := fun w => (Ok (clock w), w).

(** [res.json(b)] *)
Definition res_json {A} (b : A) : IO (Response A) :=
  ret {| status := 200; body := b |}.

(* ================================================================= *)
(** ** GET /api/rates/base *)

(** [Object.entries(baseRates)]: the keys in the order the literal writes
    them. *)
Definition baseRates_entries : list (jsstring * BaseRate) :=
  [ (str "electricity", baseRates.electricity);
    (str "naturalGas", baseRates.naturalGas);
    (str "water", baseRates.water);
    (str "solar", baseRates.solar) ].

Record BaseRateEntry := {
  entry_utility : jsstring;
  entry_rate : Num.number;
  entry_unit : jsstring;
}.

Record BaseRatesBody := {
  base_rates : list BaseRateEntry;
  note : jsstring;
}.

(** GET /api/rates/base *)
Definition api_rates_base : IO (Response BaseRatesBody) :=
  res_json {|
    base_rates :=
      map (fun '(name, data) =>
             {| entry_utility := name;
                entry_rate := rate data;
                entry_unit := rate_unit data |}) baseRates_entries;
    note := str "Base rates before weather adjustments" |}.

(* ================================================================= *)
(** ** The quotes service *)

(** [Math.floor]: the greatest integer not above the argument. *)
Definition Math_floor (x : Num.number) : Num.number :=
  match x with
  | S754_finite s m e =>
      if 0 <=? e then x
      else
        let n := cond_Zopp s (Zpos m) / 2 ^ (- e) in
        if n =? 0 then S754_zero s else Num.int n
  | _ => x
  end.

(** [x === y] on numbers. *)
Definition strict_equal (x y : Num.number) : bool := SFeqb x y.

(** The index a number names in an array: [a[x]] reads the element at that
    index, and [undefined] when the number is no index. *)
Definition array_index (x : Num.number) : option nat :=
  match x with
  | S754_zero _ => Some 0%nat
  | S754_finite false m e =>
      if 0 <=? e then Some (Z.to_nat (Zpos m * 2 ^ e))
      else if Zpos m mod 2 ^ (- e) =? 0
           then Some (Z.to_nat (Zpos m / 2 ^ (- e)))
           else None
  | _ => None
  end.

(** [array[x]] *)
Definition element {A} (array : list A) (x : Num.number) : option A :=
  match array_index x with
  | Some i => nth_error array i
  | None => None
  end.

(** [array.length] *)
Definition length_of {A} (array : list A) : Num.number :=
  Num.int (Z.of_nat (List.length array)).

(** White space and line terminators, which [parseInt] skips at the start. *)
Definition is_StrWhiteSpaceChar (c : code_unit) : bool :=
  ((c =? 9) || (c =? 10) || (c =? 11) || (c =? 12) || (c =? 13) || (c =? 32)
   || (c =? 160) || (c =? 5760) || ((8192 <=? c) && (c <=? 8202))
   || (c =? 8232) || (c =? 8233) || (c =? 8239) || (c =? 8287)
   || (c =? 12288) || (c =? 65279))%N.

Fixpoint trim_start (s : jsstring) : jsstring :=
  match s with
  | c :: s' => if is_StrWhiteSpaceChar c then trim_start s' else s
  | [] => []
  end.

(** The value of a digit in a radix, for the radices 10 and 16. *)
Definition digit_value (radix : Z) (c : code_unit) : option Z :=
  if ((48 <=? c) && (c <=? 57))%N then Some (Z.of_N (c - 48))
  else if radix =? 16 then
    if ((97 <=? c) && (c <=? 102))%N then Some (Z.of_N (c - 87))
    else if ((65 <=? c) && (c <=? 70))%N then Some (Z.of_N (c - 55))
    else None
  else None.

(** The digits at the start of a string, read in a radix: how many there are
    and the integer they write. *)
Fixpoint leading_digits (radix : Z) (s : jsstring) (count : nat) (acc : Z)
  : nat * Z :=
  match s with
  | c :: s' =>
      match digit_value radix c with
      | Some d => leading_digits radix s' (S count) (radix * acc + d)
      | None => (count, acc)
      end
  | [] => (count, acc)
  end.

(** [parseInt(string)], without a radix. *)
Definition parseInt (string : jsstring) : Num.number :=
  let trimmed := trim_start string in
  let '(negative, unsigned) :=
    match trimmed with
    | 45%N :: rest => (true, rest)
    | 43%N :: rest => (false, rest)
    | _ => (false, trimmed)
    end in
  let '(R, digits) :=
    match unsigned with
    | 48%N :: 120%N :: rest => (16, rest)
    | 48%N :: 88%N :: rest => (16, rest)
    | _ => (10, unsigned)
    end in
  let '(count, mathInt) := leading_digits R digits 0 0 in
  match count with
  | O => S754_nan
  | _ =>
      if mathInt =? 0 then S754_zero negative
      else Num.int (if negative then - mathInt else mathInt)
  end.

Module QuoteService.

Record Quote := {
  id : Num.number;
  text : jsstring;
  author : jsstring;
  category : jsstring;
}.

Definition quotes : list Quote := [
  {| id := Num.int 1; text := str "The only way to do great work is to love what you do."; author := str "Steve Jobs"; category := str "motivation" |};
  {| id := Num.int 2; text := str "Innovation distinguishes between a leader and a follower."; author := str "Steve Jobs"; category := str "innovation" |};
  {| id := Num.int 3; text := str "Stay hungry, stay foolish."; author := str "Steve Jobs"; category := str "motivation" |};
  {| id := Num.int 4; text := str "Code is like humor. When you have to explain it, it's bad."; author := str "Cory House"; category := str "programming" |};
  {| id := Num.int 5; text := str "First, solve the problem. Then, write the code."; author := str "John Johnson"; category := str "programming" |};
  {| id := Num.int 6; text := str "Simplicity is the soul of efficiency."; author := str "Austin Freeman"; category := str "programming" |};
  {| id := Num.int 7; text := str "The best time to plant a tree was 20 years ago. The second best time is now."; author := str "Chinese Proverb"; category := str "motivation" |};
  {| id := Num.int 8; text := str "It does not matter how slowly you go as long as you do not stop."; author := str "Confucius"; category := str "persistence" |};
  {| id := Num.int 9; text := str "Quality is not an act, it is a habit."; author := str "Aristotle"; category := str "quality" |};
  {| id := Num.int 10; text := str "The only impossible journey is the one you never begin."; author := str "Tony Robbins"; category := str "motivation" |}
].

(** GET /api/quotes/random, for the number [Math.random()] returns. *)
Definition api_quotes_random (random : Num.number) : Response (option Quote) :=
  let randomQuote :=
    element quotes (Math_floor (Num.mul random (length_of quotes))) in
  {| status := 200; body := randomQuote |}.

Record QuoteList := {
  list_quotes : list Quote;
  total : Num.number;
}.

(** GET /api/quotes, for [req.query.category] at its asserted type: a string,
    or [undefined] when the query has none. *)
Definition api_quotes (category_param : option jsstring) : Response QuoteList :=
  match category_param with
  | Some (c :: rest) =>
      let category' := c :: rest in
      let filtered :=
        filter (fun q => Str.eqb (toLowerCase (category q))
                           (toLowerCase category')) quotes in
      {| status := 200;
         body := {| list_quotes := filtered; total := length_of filtered |} |}
  | _ =>
      {| status := 200;
         body := {| list_quotes := quotes; total := length_of quotes |} |}
  end.

Record ErrorBody := { error : jsstring }.

(** GET /api/quotes/:id *)
Definition api_quotes_id (id_param : jsstring) : Response (Quote + ErrorBody) :=
  let id' := parseInt id_param in
  let quote := find (fun q => strict_equal (id q) id') quotes in
  match quote with
  | None => {| status := 404; body := inr {| error := str "Quote not found" |} |}
  | Some quote => {| status := 200; body := inl quote |}
  end.

(** [new Set(values)], then spread: the values without repetition, each at
    its first place. *)
Definition Set_spread (values : list jsstring) : list jsstring :=
  fold_left (fun seen v => if existsb (Str.eqb v) seen then seen else seen ++ [v])
    values [].

Record CategoryList := { categories : list jsstring }.

(** GET /api/quotes/categories/list *)
Definition api_quotes_categories_list : Response CategoryList :=
  let categories := Set_spread (map category quotes) in
  {| status := 200; body := {| categories := categories |} |}.

End QuoteService.

(* ================================================================= *)
(** ** Buffers *)

(** The response emits its body as Buffers of bytes, and [data += chunk]
    converts each one with [toString()]: it is decoded as UTF-8 on its own,
    every ill-formed or unfinished sequence giving U+FFFD. *)
Definition Buffer := list N.

Definition within (low high b : N) : bool := ((low <=? b) && (b <=? high))%N.

Definition continuation (b : N) : bool := within 128 191 b.

(** The second byte a lead byte of a sequence of three or four admits. *)
Definition second_byte (lead b : N) : bool :=
  (if lead =? 224 then within 160 191 b
   else if lead =? 237 then within 128 159 b
   else if lead =? 240 then within 144 191 b
   else if lead =? 244 then within 128 143 b
   else within 128 191 b)%N.

(** The code units of a code point. *)
Definition code_units (cp : N) : jsstring :=
  (if cp <? 65536 then [cp]
   else [55296 + (cp - 65536) / 1024; 56320 + (cp - 65536) mod 1024])%N.

Definition replacement : code_unit := 65533%N.

(** [buffer.toString()] *)
Fixpoint Buffer_toString (bytes : Buffer) : jsstring :=
  match bytes with
  | [] => []
  | b0 :: r0 =>
      if (b0 <? 128)%N then b0 :: Buffer_toString r0
      else if within 194 223 b0 then
        match r0 with
        | [] => [replacement]
        | b1 :: r1 =>
            if continuation b1 then
              code_units ((b0 - 192) * 64 + (b1 - 128))%N ++ Buffer_toString r1
            else replacement :: Buffer_toString r0
        end
      else if within 224 239 b0 then
        match r0 with
        | [] => [replacement]
        | b1 :: r1 =>
            if second_byte b0 b1 then
              match r1 with
              | [] => [replacement]
              | b2 :: r2 =>
                  if continuation b2 then
                    code_units (((b0 - 224) * 64 + (b1 - 128)) * 64
                                + (b2 - 128))%N
                    ++ Buffer_toString r2
                  else replacement :: Buffer_toString r1
              end
            else replacement :: Buffer_toString r0
        end
      else if within 240 244 b0 then
        match r0 with
        | [] => [replacement]
        | b1 :: r1 =>
            if second_byte b0 b1 then
              match r1 with
              | [] => [replacement]
              | b2 :: r2 =>
                  if continuation b2 then
                    match r2 with
                    | [] => [replacement]
                    | b3 :: r3 =>
                        if continuation b3 then
                          code_units ((((b0 - 240) * 64 + (b1 - 128)) * 64
                                       + (b2 - 128)) * 64 + (b3 - 128))%N
                          ++ Buffer_toString r3
                        else replacement :: Buffer_toString r2
                    end
                  else replacement :: Buffer_toString r1
              end
            else replacement :: Buffer_toString r0
        end
      else replacement :: Buffer_toString r0
  end.

(** A response whose body arrives in these Buffers. *)
Definition response_of (buffers : list Buffer) : transport :=
  Delivered (map Buffer_toString buffers).

(* ================================================================= *)
(** ** Conversions at run time *)

(** The TypeScript types are erased before the code runs: [fetchWeather]
    resolves with whatever [JSON.parse] returned, and the comparisons and
    method calls of [calculateRates] convert what they are given. *)

(** The decimal digits of a natural number. *)
Definition decimal_digits (z : Z) : jsstring :=
  str (NilZero.string_of_uint (N.to_uint (Z.to_N z))).

(** [floor (num / den * 10^j)] *)
Definition scale (num den j : Z) : Z :=
  if 0 <=? j then (num * 10 ^ j) / den else num / (den * 10 ^ (- j)).

(** The least [t >= from] with [1 <= num / den * 10^t]. *)
Fixpoint first_digit_at (fuel : nat) (num den from : Z) : Z :=
  match fuel with
  | O => from
  | S fuel' =>
      if den <=? num * 10 ^ from then from
      else first_digit_at fuel' num den (from + 1)
  end.

(** The [n] with [10^(n-1) <= num / den < 10^n]. *)
Definition magnitude (num den : Z) : Z :=
  if den <=? num then Z.of_nat (List.length (decimal_digits (num / den)))
  else 1 - first_digit_at 400 num den 1.

(** The digits of [Number::toString] for a length [k]: the [n] and the [s]
    with [10^(k-1) <= s < 10^k] for which [s * 10^(n-k)] reads back as [x];
    of two such [s] the one nearer to [x], or the even one. *)
Definition digits_of_length (x : Num.number) (num den n0 k : Z)
  : option (Z * Z) :=
  let low := scale num den (k - n0) in
  let high := if low + 1 <? 10 ^ k then (n0, low + 1)
              else (n0 + 1, 10 ^ (k - 1)) in
  let reads_back '(n, s) := SFeqb (JSON.of_decimal false s (n - k)) x in
  match reads_back (n0, low), reads_back high with
  | true, false => Some (n0, low)
  | false, true => Some high
  | false, false => None
  | true, true =>
      let j := k - n0 in
      let '(P, D) := if 0 <=? j then (num * 10 ^ j, den)
                     else (num, den * 10 ^ (- j)) in
      match 2 * P ?= (2 * low + 1) * D with
      | Lt => Some (n0, low)
      | Gt => Some high
      | Eq => if Z.even low then Some (n0, low) else Some high
      end
  end.

(** The least such length, from [k] on. *)
Fixpoint shortest_digits (fuel : nat) (x : Num.number) (num den n0 k : Z)
  : Z * Z * Z :=
  match fuel with
  | O => (n0, k, scale num den (k - n0))
  | S fuel' =>
      match digits_of_length x num den n0 k with
      | Some (n, s) => (n, k, s)
      | None => shortest_digits fuel' x num den n0 (k + 1)
      end
  end.

Definition zeros (n : Z) : jsstring := repeat 48%N (Z.to_nat n).

(** [Number::toString(x, 10)]: the shortest decimal that reads back as
    [x], written plainly when its point lies within 21 digits or up to six
    zeros follow it, with an exponent otherwise. *)
Definition Number_toString (x : Num.number) : jsstring :=
  match x with
  | S754_nan => str "NaN"
  | S754_zero _ => str "0"
  | S754_infinity s => (if s then str "-" else []) ++ str "Infinity"
  | S754_finite sign m e =>
      let '(num, den) := if 0 <=? e then (Zpos m * 2 ^ e, 1)
                         else (Zpos m, 2 ^ (- e)) in
      let '(n, k, s) :=
        shortest_digits 17 (S754_finite false m e) num den
          (magnitude num den) 1 in
      let ds := decimal_digits s in
      (if sign then str "-" else []) ++
      (if (k <=? n) && (n <=? 21) then ds ++ zeros (n - k)
       else if (0 <? n) && (n <=? 21) then
         firstn (Z.to_nat n) ds ++ str "." ++ skipn (Z.to_nat n) ds
       else if (-6 <? n) && (n <=? 0) then str "0." ++ zeros (- n) ++ ds
       else
         let exponent := (if n - 1 <? 0 then str "-" else str "+")
                         ++ decimal_digits (Z.abs (n - 1)) in
         if k =? 1 then ds ++ str "e" ++ exponent
         else firstn 1 ds ++ str "." ++ skipn 1 ds ++ str "e" ++ exponent)
  end.

(** The string without white space and line terminators at its ends. *)
Definition trim (s : jsstring) : jsstring :=
  rev (trim_start (rev (trim_start s))).

(** The integer a string of digits of a radix writes. *)
Fixpoint digits_in (radix : Z) (s : jsstring) (acc : Z) : option Z :=
  match s with
  | [] => Some acc
  | c :: s' =>
      match JSON.hex_digit c with
      | Some d =>
          if Z.of_N d <? radix then digits_in radix s' (radix * acc + Z.of_N d)
          else None
      | None => None
      end
  end.

(** [0x], [0o] or [0b], in either case, and at least one digit. *)
Definition NonDecimalIntegerLiteral (s : jsstring) : option Z :=
  match s with
  | 48%N :: p :: d :: ds =>
      if ((p =? 120) || (p =? 88))%N then digits_in 16 (d :: ds) 0
      else if ((p =? 111) || (p =? 79))%N then digits_in 8 (d :: ds) 0
      else if ((p =? 98) || (p =? 66))%N then digits_in 2 (d :: ds) 0
      else None
  | _ => None
  end.

(** [e] or [E], an optional sign and at least one digit, up to the end. *)
Definition ExponentPart (s : jsstring) : option Z :=
  match s with
  | [] => Some 0
  | c :: s' =>
      if ((c =? 101) || (c =? 69))%N then
        let '(minus, s'') :=
          match s' with
          | 45%N :: r => (true, r)
          | 43%N :: r => (false, r)
          | _ => (false, s')
          end in
        let '(ds, r) := JSON.digits s'' in
        match ds, r with
        | _ :: _, [] =>
            Some (if minus then - JSON.digits_value ds else JSON.digits_value ds)
        | _, _ => None
        end
      else None
  end.

(** Digits with an optional point among them and an optional exponent: the
    integer [m] and the exponent [e] of the decimal [m * 10^e] written. *)
Definition StrUnsignedDecimalLiteral (s : jsstring) : option (Z * Z) :=
  let '(int_part, r) := JSON.digits s in
  let '(frac_part, r, some_digit) :=
    match r with
    | 46%N :: r' =>
        let '(ds, r'') := JSON.digits r' in
        (ds, r'', negb (Nat.eqb (List.length (int_part ++ ds)) 0))
    | _ => ([], r, negb (Nat.eqb (List.length int_part) 0))
    end in
  if some_digit then
    match ExponentPart r with
    | Some e =>
        Some (JSON.digits_value (int_part ++ frac_part),
              e - Z.of_nat (List.length frac_part))
    | None => None
    end
  else None.

(** [StringToNumber]: the number a string writes, [NaN] when it writes
    none; white space alone writes [0]. *)
Definition StringToNumber (s : jsstring) : Num.number :=
  let text := trim s in
  match text with
  | [] => S754_zero false
  | _ =>
      match NonDecimalIntegerLiteral text with
      | Some z => Num.int z
      | None =>
          let '(negative, unsigned) :=
            match text with
            | 45%N :: r => (true, r)
            | 43%N :: r => (false, r)
            | _ => (false, text)
            end in
          if Str.eqb unsigned (str "Infinity") then S754_infinity negative
          else
            match StrUnsignedDecimalLiteral unsigned with
            | Some (m, e) => JSON.of_decimal negative m e
            | None => S754_nan
            end
      end
  end.

(** [ToString(v)]. An object of [JSON.parse] holds no function: with an own
    [toString] no method gives a primitive and the conversion throws;
    without one it is the text of [Object.prototype.toString]. An array is
    joined: [null] and [undefined] elements count as empty. *)
Fixpoint ToString (v : value) : result jsstring :=
  match v with
  | VUndefined => Ok (str "undefined")
  | VNull => Ok (str "null")
  | VBool b => Ok (if b then str "true" else str "false")
  | VNumber x => Ok (Number_toString x)
  | VString s => Ok s
  | VArray elems =>
      (fix join (elems : list value) (first : bool) : result jsstring :=
         match elems with
         | [] => Ok []
         | element :: rest =>
             text <- match element with
                     | VUndefined | VNull => Ok []
                     | _ => ToString element
                     end ;;
             more <- join rest false ;;
             Ok ((if first then [] else str ",") ++ text ++ more)
         end) elems true
  | VObject props =>
      if existsb (fun kv => Str.eqb (fst kv) (str "toString")) props
      then Throw TypeError
      else Ok (str "[object Object]")
  end.

(** [ToPrimitive(v)] with the hint [number]: on an object or an array
    [valueOf] gives no primitive, and the result is that of [toString]. *)
Definition ToPrimitive (v : value) : result value :=
  match v with
  | VArray _ | VObject _ => text <- ToString v ;; Ok (VString text)
  | _ => Ok v
  end.

(** [ToNumber(v)] *)
Definition ToNumber (v : value) : result Num.number :=
  primitive <- ToPrimitive v ;;
  Ok match primitive with
     | VUndefined => S754_nan
     | VNull => S754_zero false
     | VBool b => if b then Num.int 1 else S754_zero false
     | VNumber x => x
     | VString s => StringToNumber s
     | VArray _ | VObject _ => S754_nan
     end.

(** [array.filter(f)] for an [f] that may throw. *)
Fixpoint Array_filter {A} (f : A -> result bool) (array : list A)
  : result (list A) :=
  match array with
  | [] => Ok []
  | x :: rest =>
      keep <- f x ;;
      kept <- Array_filter f rest ;;
      Ok (if keep then x :: kept else kept)
  end.

(* ================================================================= *)
(** ** The code as it runs, whatever the types say *)

Module RunTime.

(** [x > c], [x < c], [x >= c], [x <= c] for a number [c]: with a number on
    one side the comparison is one of numbers, after [x] is converted. *)
Definition gt (x : value) (c : Num.number) : result bool :=
  n <- ToNumber x ;; Ok (Num.gt n c).
Definition lt (x : value) (c : Num.number) : result bool :=
  n <- ToNumber x ;; Ok (Num.lt n c).
Definition ge (x : value) (c : Num.number) : result bool :=
  n <- ToNumber x ;; Ok (Num.ge n c).
Definition le (x : value) (c : Num.number) : result bool :=
  n <- ToNumber x ;; Ok (Num.le n c).

(** [v.toLowerCase()]: only a string has the method; on anything else the
    property is missing or is no function, and the call throws. *)
Definition call_toLowerCase (v : value) : result jsstring :=
  match v with
  | VString s => Ok (toLowerCase s)
  | _ => Throw TypeError
  end.

Definition calculateRates (weather : value) : result (list UtilityRate) :=
  let rates : list UtilityRate := [] in
  temp <- Get weather (str "temperature") ;;
  conditions_read <- Get weather (str "conditions") ;;
  conditions <- call_toLowerCase conditions_read ;;
  humidity <- Get weather (str "humidity") ;;
  (* Electricity *)
  elec <-
    (hot <- gt temp (Num.int 85) ;;
     if hot then Ok (Num.dec 4 2, str "High cooling demand due to heat")
     else
       cold <- lt temp (Num.int 40) ;;
       if cold then Ok (Num.dec 3 2, str "Increased heating demand")
       else
         mild <- (above <- ge temp (Num.int 65) ;;
                  if above then le temp (Num.int 75) else Ok false) ;;
         if mild then
           Ok (Num.neg (Num.dec 2 2), str "Low HVAC demand - mild weather")
         else Ok (Num.int 0, str "Standard rate")) ;;
  let '(elecAdjust, elecReason) := elec in
  let rates := push rates {|
    utility := str "Electricity";
    baseRate := rate baseRates.electricity;
    unit := rate_unit baseRates.electricity;
    weatherAdjustment := elecAdjust;
    adjustedRate :=
      (Num.Math_round ((rate baseRates.electricity + elecAdjust) * Num.int 1000)
       / Num.int 1000)%num;
    reason := elecReason |} in
  (* Natural Gas *)
  gas <-
    (freezing <- lt temp (Num.int 32) ;;
     if freezing then Ok (Num.dec 45 2, str "Peak heating season - extreme cold")
     else
       cold <- lt temp (Num.int 50) ;;
       if cold then Ok (Num.dec 25 2, str "Heating demand increased")
       else
         hot <- gt temp (Num.int 80) ;;
         if hot then Ok (Num.neg (Num.dec 15 2), str "Reduced heating demand")
         else Ok (Num.int 0, str "Standard rate")) ;;
  let '(gasAdjust, gasReason) := gas in
  let rates := push rates {|
    utility := str "Natural Gas";
    baseRate := rate baseRates.naturalGas;
    unit := rate_unit baseRates.naturalGas;
    weatherAdjustment := gasAdjust;
    adjustedRate :=
      (Num.Math_round ((rate baseRates.naturalGas + gasAdjust) * Num.int 100)
       / Num.int 100)%num;
    reason := gasReason |} in
  (* Water *)
  water <-
    (drought <- (dry <- lt humidity (Num.int 30) ;;
                 if dry then gt temp (Num.int 80) else Ok false) ;;
     if drought then
       Ok (Num.dec 2 3, str "Drought surcharge - conservation pricing")
     else if includes conditions (str "rain") then
       Ok (Num.neg (Num.dec 1 3), str "Reduced irrigation demand")
     else Ok (Num.int 0, str "Standard rate")) ;;
  let '(waterAdjust, waterReason) := water in
  let rates := push rates {|
    utility := str "Water";
    baseRate := rate baseRates.water;
    unit := rate_unit baseRates.water;
    weatherAdjustment := waterAdjust;
    adjustedRate :=
      (Num.Math_round ((rate baseRates.water + waterAdjust) * Num.int 10000)
       / Num.int 10000)%num;
    reason := waterReason |} in
  (* Solar Buyback *)
  let '(solarAdjust, solarReason) :=
    (if includes conditions (str "sunny") || includes conditions (str "clear") then
       (Num.dec 3 2, str "Peak solar production - premium buyback")
     else if includes conditions (str "cloud") || includes conditions (str "overcast") then
       (- Num.dec 2 2, str "Reduced solar output")
     else if includes conditions (str "rain") || includes conditions (str "storm") then
       (- Num.dec 4 2, str "Minimal solar production")
     else (Num.int 0, str "Standard buyback rate"))%num in
  let rates := push rates {|
    utility := str "Solar Buyback";
    baseRate := rate baseRates.solar;
    unit := rate_unit baseRates.solar;
    weatherAdjustment := solarAdjust;
    adjustedRate :=
      (Num.Math_round ((rate baseRates.solar + solarAdjust) * Num.int 1000)
       / Num.int 1000)%num;
    reason := solarReason |} in
  Ok rates.

(** GET /api/quotes of the quotes service, for whatever [req.query.category]
    holds: a string, [undefined] when the query has no category, an array
    when it has several, an object when it has one in brackets. *)
Definition api_quotes (category : value)
  : result (Response QuoteService.QuoteList) :=
  if ToBoolean category then
    filtered <- Array_filter (fun q =>
                  let own := toLowerCase (QuoteService.category q) in
                  asked <- call_toLowerCase category ;;
                  Ok (Str.eqb own asked)) QuoteService.quotes ;;
    Ok {| status := 200;
          body := {| QuoteService.list_quotes := filtered;
                     QuoteService.total := length_of filtered |} |}
  else
    Ok {| status := 200;
          body := {| QuoteService.list_quotes := QuoteService.quotes;
                     QuoteService.total := length_of QuoteService.quotes |} |}.

End RunTime.

(* ================================================================= *)
(** ** The handlers that ask the weather service *)

(** An [async] handler: the state its promise ends in and the world it
    leaves. An [await] of a promise that stays pending never resumes. *)
Definition Async (A : Type) := World -> promise A * World.

Definition resolve {A} (a : A) : Async A := fun w => (Fulfilled a, w).

Definition async_bind {A B} (m : Async A) (k : A -> Async B) : Async B :=
  fun w =>
    match m w with
    | (Fulfilled a, w') => k a w'
    | (Rejected e, w') => (Rejected e, w')
    | (Pending, w') => (Pending, w')
    end.

Notation "x <~ m ;; k" := (async_bind m (fun x => k))
  (at level 61, m at next level, right associativity).

(** An expression that may throw, and a synchronous call. *)
Definition eval {A} (r : result A) : Async A :=
  fun w => (match r with Ok a => Fulfilled a | Throw e => Rejected e end, w).

Definition run {A} (m : IO A) : Async A :=
  fun w => let '(r, w') := m w in eval r w'.

Definition try_catch {A} (block : Async A) (handler : exn -> Async A)
  : Async A :=
  fun w =>
    match block w with
    | (Rejected e, w') => handler e w'
    | outcome => outcome
    end.

(** [for (const x of xs) { ... }] over the state the loop body updates. *)
Fixpoint for_of {A S} (xs : list A) (loop_body : A -> S -> Async S) (s : S)
  : Async S :=
  match xs with
  | [] => resolve s
  | x :: xs' => s' <~ loop_body x s ;; for_of xs' loop_body s'
  end.

(** The body of GET /api/rates: what is read from the value the fetch
    resolved with is sent as it is. *)
Record WeatherSummary := {
  summary_temperature : value;
  summary_conditions : value;
}.

Record CityQuote := {
  quote_city : value;
  quote_weather : WeatherSummary;
  quote_rates : list UtilityRate;
}.

Record RatesBody := {
  quotes : list CityQuote;
  generatedAt : jsstring;
}.

Record QuotedWeather := {
  quoted_temperature : value;
  quoted_conditions : value;
  quoted_humidity : value;
}.

Record RateQuote := {
  rate_quote_city : value;
  rate_quote_weather : QuotedWeather;
  rates : list UtilityRate;
  rate_quote_generatedAt : jsstring;
  validFor : jsstring;
}.

Record QuoteFailure := {
  failure_error : jsstring;
  failure_message : jsstring;
}.

(** [res.status(code).json(b)] *)
Definition res_status_json {A} (code : Z) (b : A) : IO (Response A) :=
  ret {| status := code; body := b |}.

(** [e instanceof Error]: everything [fetchWeather] rejects with and
    everything [calculateRates] throws is an Error. *)
Definition instanceof_Error (e : exn) : bool :=
  match e with
  | Error_new _ | SyntaxError | TypeError | TransportError _ => true
  end.

Definition cities : list jsstring :=
  [str "new-york"; str "london"; str "tokyo"; str "sydney"; str "paris"].

Section Handlers.

Variable WEATHER_SERVICE_URL : option jsstring.
Variable http_get : jsstring -> transport.

(** [e.message]. The texts of the errors of the engine and of the transport
    are not part of the repository. *)
Variable Error_message : exn -> jsstring.

(** [await fetchWeather(city)] *)
Definition await_fetchWeather (city : jsstring) : Async value :=
  fun w =>
    (fetchWeather WEATHER_SERVICE_URL http_get city,
     {| requested := requested w ++ [city]; clock := clock w |}).

(** GET /api/rates *)
Definition api_rates : Async (Response RatesBody) :=
  quotes <~ for_of cities (fun city quotes =>
    try_catch
      (weather <~ await_fetchWeather city ;;
       rates <~ eval (RunTime.calculateRates weather) ;;
       weather_city <~ eval (Get weather (str "city")) ;;
       weather_temperature <~ eval (Get weather (str "temperature")) ;;
       weather_conditions <~ eval (Get weather (str "conditions")) ;;
       resolve (push quotes {|
         quote_city := weather_city;
         quote_weather := {|
           summary_temperature := weather_temperature;
           summary_conditions := weather_conditions |};
         quote_rates := rates |}))
      (fun _ => resolve quotes)) [] ;;
  now <~ run Date_toISOString ;;
  run (res_json {| quotes := quotes; generatedAt := now |}).

(** GET /api/rates/:city, for [req.params.city] *)
Definition api_rates_city (city_param : jsstring)
  : Async (Response (RateQuote + QuoteFailure)) :=
  try_catch
    (weather <~ await_fetchWeather city_param ;;
     rates <~ eval (RunTime.calculateRates weather) ;;
     weather_city <~ eval (Get weather (str "city")) ;;
     weather_temperature <~ eval (Get weather (str "temperature")) ;;
     weather_conditions <~ eval (Get weather (str "conditions")) ;;
     weather_humidity <~ eval (Get weather (str "humidity")) ;;
     now <~ run Date_toISOString ;;
     run (res_json (inl {|
       rate_quote_city := weather_city;
       rate_quote_weather := {|
         quoted_temperature := weather_temperature;
         quoted_conditions := weather_conditions;
         quoted_humidity := weather_humidity |};
       rates := rates;
       rate_quote_generatedAt := now;
       validFor := str "1 hour" |})))
    (fun error =>
       run (res_status_json 404 (inr {|
         failure_error := str "Could not generate rate quote";
         failure_message :=
           if instanceof_Error error then Error_message error
           else str "Weather data unavailable" |}))).

End Handlers.

(* ================================================================= *)
(** ** Vocabulary of the specification *)

(** The quote of a utility in a list of quotes. *)
Definition quote_for (name : jsstring) (rates : list UtilityRate)
  : option UtilityRate :=
  find (fun q => Str.eqb (utility q) name) rates.

(** Rounding to [p] decimals as the specification words it: the multiple of
    [10^-p] nearest to the value of [x], a half going up, taken as a number. *)
Definition round_decimals (p : Z) (x : Num.number) : Num.number :=
  match Num.to_Q x with
  | Some v =>
      let n := Qfloor (Qplus (Qmult v (inject_Z (10 ^ p))) (Qmake 1 2)) in
      Num.div (Num.exact n) (Num.exact (10 ^ p))
  | None => x
  end.

(** The precision the specification fixes for each utility. *)
Definition decimals (utility : jsstring) : Z :=
  if Str.eqb utility (str "Electricity") then 3
  else if Str.eqb utility (str "Solar Buyback") then 3
  else if Str.eqb utility (str "Natural Gas") then 2
  else if Str.eqb utility (str "Water") then 4
  else 0.

(** A number field holds a finite binary64 value. *)
Definition finite_number (x : Num.number) : bool :=
  Num.valid x && Num.is_finite x.

Definition well_formed (q : UtilityRate) : bool :=
  finite_number (baseRate q) && finite_number (weatherAdjustment q)
  && finite_number (adjustedRate q).

(** The reading of a scenario of the specification. *)
Definition reading (temp : Z) (conds : string) (hum : Z) (c : jsstring)
  : WeatherData :=
  {| city := c; temperature := Num.int temp;
     conditions := str conds; humidity := Num.int hum |}.

Definition drought_quote : UtilityRate :=
  {| utility := str "Water";
     baseRate := Num.dec 4 3;
     unit := str "gallon";
     weatherAdjustment := Num.dec 2 3;
     adjustedRate := Num.dec 6 3;
     reason := str "Drought surcharge - conservation pricing" |}.

(** The parsed body has a field named [error], as the specification puts it. *)
Definition has_error_field (v : value) : bool :=
  match v with
  | VObject props =>
      match own_property (str "error") props with
      | Some _ => true
      | None => false
      end
  | _ => false
  end.

(** A string between double quotes, for the bodies of the examples. *)
Definition quoted (s : string) : jsstring := [34%N] ++ str s ++ [34%N].

(** The body [{"error":"not found"}]. *)
Definition not_found_body : jsstring :=
  str "{" ++ quoted "error" ++ str ":" ++ quoted "not found" ++ str "}".

(** The body [{"error":""}]. *)
Definition empty_error_body : jsstring :=
  str "{" ++ quoted "error" ++ str ":" ++ quoted "" ++ str "}".

(** A body of the shape the weather service documents. *)
Definition london_body : jsstring :=
  str "{" ++ quoted "city" ++ str ":" ++ quoted "London" ++ str ","
  ++ quoted "temperature" ++ str ":52.5,"
  ++ quoted "conditions" ++ str ":" ++ quoted "Light Rain" ++ str ","
  ++ quoted "humidity" ++ str ":81}".

(** A parsed body seen at the type [WeatherData] the promise declares. *)
Definition as_WeatherData (v : value) : option WeatherData :=
  match Get v (str "city"), Get v (str "temperature"),
        Get v (str "conditions"), Get v (str "humidity") with
  | Ok (VString c), Ok (VNumber t), Ok (VString conds), Ok (VNumber h) =>
      Some {| city := c; temperature := t; conditions := conds; humidity := h |}
  | _, _, _, _ => None
  end.

(** The URL [fetchWeather] asks for. *)
Definition weather_url (env : option jsstring) (city : jsstring) : jsstring :=
  WEATHER_SERVICE env ++ str "/api/weather/" ++ city.

(** [data] once every chunk has been appended. *)
Definition received (chunks : list jsstring) : jsstring :=
  fold_left (fun data chunk => data ++ chunk) chunks [].

(** A weather service that answers every request with one body. *)
Definition always (body : jsstring) : jsstring -> transport :=
  fun _ => Delivered [body].

(** The sentences of the specification on [fetchWeather], word for word,
    for a weather service that [always] answers with the body [data]: the
    promise resolves with the parsed body if and only if the body parses as
    JSON and has no [error] field; a parsed body with an [error] field makes
    it fail with an Error built from that field. *)
Definition resolves_iff_no_error_field (data : jsstring) : Prop :=
  forall city v,
    fetchWeather None (always data) city = Fulfilled v <->
    JSON.parse data = Ok v /\ has_error_field v = false.

Definition error_field_rejects (data : jsstring) : Prop :=
  forall city v,
    JSON.parse data = Ok v ->
    has_error_field v = true ->
    exists e, fetchWeather None (always data) city = Rejected (Error_new e).

(** Whether the fetch of a city fails. *)
Definition fetch_failed (env : option jsstring)
  (http_get : jsstring -> transport) (c : jsstring) : bool :=
  match fetchWeather env http_get c with
  | Rejected _ => true
  | _ => false
  end.

(** Whether the fetch of a city succeeds with a value [calculateRates]
    throws on. *)
Definition unpriced (env : option jsstring)
  (http_get : jsstring -> transport) (c : jsstring) : bool :=
  match fetchWeather env http_get c with
  | Fulfilled weather =>
      match RunTime.calculateRates weather with
      | Throw _ => true
      | Ok _ => false
      end
  | _ => false
  end.

(** [v.key], where reading it does not throw. *)
Definition field (v : value) (key : string) : value :=
  match Get v (str key) with
  | Ok x => x
  | Throw _ => VUndefined
  end.

(** The entry the loop body pushes for the value a fetch resolved with and
    the rates calculated from it. *)
Definition entry (weather : value) (rates : list UtilityRate) : CityQuote :=
  {| quote_city := field weather "city";
     quote_weather := {| summary_temperature := field weather "temperature";
                         summary_conditions := field weather "conditions" |};
     quote_rates := rates |}.

(** The entries of a city: one when its fetch succeeds and
    [calculateRates] returns, none otherwise. *)
Definition entries (env : option jsstring)
  (http_get : jsstring -> transport) (c : jsstring) : list CityQuote :=
  match fetchWeather env http_get c with
  | Fulfilled weather =>
      match RunTime.calculateRates weather with
      | Ok rates => [entry weather rates]
      | Throw _ => []
      end
  | _ => []
  end.

(** The sentence of the specification on the aggregate, word for word, for
    one weather service: whenever exactly [k] of the five fetches fail, the
    answer holds exactly [5 - k] quotes. *)
Definition quotes_all_but_the_failed_fetches (env : option jsstring)
  (http_get : jsstring -> transport) : Prop :=
  forall (w0 : World) (k : nat),
    List.length (filter (fetch_failed env http_get) cities) = k ->
    exists answer w1,
      api_rates env http_get w0 = (Fulfilled answer, w1)
      /\ List.length (quotes (body answer)) = (5 - k)%nat.

(** The city a URL of the weather service asks for, at the default
    address. *)
Definition city_of_url (url : jsstring) : jsstring :=
  skipn (List.length (WEATHER_SERVICE None ++ str "/api/weather/")) url.

(** A weather service that answers every city with the reading of London,
    but Tokyo with the body [{}]. *)
Definition empty_for_tokyo (url : jsstring) : transport :=
  if Str.eqb (city_of_url url) (str "tokyo") then Delivered [str "{}"]
  else Delivered [london_body].

(** The same service when London and Paris cannot be reached. *)
Definition two_down (url : jsstring) : transport :=
  if Str.eqb (city_of_url url) (str "london")
     || Str.eqb (city_of_url url) (str "paris")
  then Failed (TransportError (str "ECONNREFUSED"))
  else empty_for_tokyo url.

Definition midnight : jsstring := str "2024-01-01T00:00:00.000Z".

(* ================================================================= *)
(** ** Vocabulary of the further properties *)

(** The value of a finite number in units of [2^-1074], the spacing of the
    smallest binary64 numbers: an integer for every valid number. *)
Definition scaled (x : Num.number) : Z :=
  match x with
  | S754_finite s m e => cond_Zopp s (Zpos m) * 2 ^ (e + 1074)
  | _ => 0
  end.

(** The adjustment of a utility for a reading. *)
Definition adjustment_of (name : string) (w : WeatherData) : option Num.number :=
  option_map weatherAdjustment (quote_for (str name) (calculateRates w)).

(** The four rule chains, as the source orders them. *)
Definition electricity_adjustment (temp : Num.number) : Num.number :=
  if Num.gt temp (Num.int 85) then Num.dec 4 2
  else if Num.lt temp (Num.int 40) then Num.dec 3 2
  else if Num.ge temp (Num.int 65) && Num.le temp (Num.int 75)
       then Num.neg (Num.dec 2 2)
  else Num.int 0.

Definition gas_adjustment (temp : Num.number) : Num.number :=
  if Num.lt temp (Num.int 32) then Num.dec 45 2
  else if Num.lt temp (Num.int 50) then Num.dec 25 2
  else if Num.gt temp (Num.int 80) then Num.neg (Num.dec 15 2)
  else Num.int 0.

Definition water_adjustment (temp hum : Num.number) (conds : jsstring)
  : Num.number :=
  if Num.lt hum (Num.int 30) && Num.gt temp (Num.int 80) then Num.dec 2 3
  else if includes conds (str "rain") then Num.neg (Num.dec 1 3)
  else Num.int 0.

Definition solar_adjustment (conds : jsstring) : Num.number :=
  if includes conds (str "sunny") || includes conds (str "clear")
  then Num.dec 3 2
  else if includes conds (str "cloud") || includes conds (str "overcast")
       then Num.neg (Num.dec 2 2)
  else if includes conds (str "rain") || includes conds (str "storm")
       then Num.neg (Num.dec 4 2)
  else Num.int 0.

Definition with_conditions (w : WeatherData) (conds : jsstring) : WeatherData :=
  {| city := city w; temperature := temperature w;
     conditions := conds; humidity := humidity w |}.

(** The price list: every quote [calculateRates] can return. *)
Definition price_list
  : list (jsstring * Num.number * Num.number * Num.number * jsstring) :=
  [ (str "Electricity", Num.dec 12 2, Num.dec 4 2, Num.dec 16 2,
     str "High cooling demand due to heat");
    (str "Electricity", Num.dec 12 2, Num.dec 3 2, Num.dec 15 2,
     str "Increased heating demand");
    (str "Electricity", Num.dec 12 2, Num.neg (Num.dec 2 2), Num.dec 10 2,
     str "Low HVAC demand - mild weather");
    (str "Electricity", Num.dec 12 2, Num.int 0, Num.dec 12 2,
     str "Standard rate");
    (str "Natural Gas", Num.dec 105 2, Num.dec 45 2, Num.dec 150 2,
     str "Peak heating season - extreme cold");
    (str "Natural Gas", Num.dec 105 2, Num.dec 25 2, Num.dec 130 2,
     str "Heating demand increased");
    (str "Natural Gas", Num.dec 105 2, Num.neg (Num.dec 15 2), Num.dec 90 2,
     str "Reduced heating demand");
    (str "Natural Gas", Num.dec 105 2, Num.int 0, Num.dec 105 2,
     str "Standard rate");
    (str "Water", Num.dec 4 3, Num.dec 2 3, Num.dec 6 3,
     str "Drought surcharge - conservation pricing");
    (str "Water", Num.dec 4 3, Num.neg (Num.dec 1 3), Num.dec 3 3,
     str "Reduced irrigation demand");
    (str "Water", Num.dec 4 3, Num.int 0, Num.dec 4 3,
     str "Standard rate");
    (str "Solar Buyback", Num.dec 8 2, Num.dec 3 2, Num.dec 11 2,
     str "Peak solar production - premium buyback");
    (str "Solar Buyback", Num.dec 8 2, Num.neg (Num.dec 2 2), Num.dec 6 2,
     str "Reduced solar output");
    (str "Solar Buyback", Num.dec 8 2, Num.neg (Num.dec 4 2), Num.dec 4 2,
     str "Minimal solar production");
    (str "Solar Buyback", Num.dec 8 2, Num.int 0, Num.dec 8 2,
     str "Standard buyback rate") ].

Definition row_of (q : UtilityRate) :=
  (utility q, baseRate q, weatherAdjustment q, adjustedRate q, reason q).

(** A value other than an object, [null] and [undefined]. *)
Definition is_primitive_or_array (v : value) : bool :=
  match v with
  | VBool _ | VNumber _ | VString _ | VArray _ => true
  | _ => false
  end.

(** The values [calculateRates] throws on. *)
Definition cannot_be_priced (weather : value) : Prop :=
  weather = VNull \/ weather = VUndefined
  \/ (forall s, field weather "conditions" <> VString s)
  \/ ToString_throws (field weather "temperature") = true
  \/ ToString_throws (field weather "humidity") = true.

(** The value of the body
    [{"temperature":"90","conditions":"Sunny","humidity":null}]. *)
Definition loose_reading : value :=
  VObject [ (str "temperature", VString (str "90"));
            (str "conditions", VString (str "Sunny"));
            (str "humidity", VNull) ].

(** Whether a Buffer ends inside a character: its last bytes begin a
    sequence that needs more. *)
Fixpoint cut_short (bytes : Buffer) : bool :=
  match bytes with
  | [] => false
  | b0 :: r0 =>
      if (b0 <? 128)%N then cut_short r0
      else if within 194 223 b0 then
        match r0 with
        | [] => true
        | b1 :: r1 => if continuation b1 then cut_short r1 else cut_short r0
        end
      else if within 224 239 b0 then
        match r0 with
        | [] => true
        | b1 :: r1 =>
            if second_byte b0 b1 then
              match r1 with
              | [] => true
              | b2 :: r2 =>
                  if continuation b2 then cut_short r2 else cut_short r1
              end
            else cut_short r0
        end
      else if within 240 244 b0 then
        match r0 with
        | [] => true
        | b1 :: r1 =>
            if second_byte b0 b1 then
              match r1 with
              | [] => true
              | b2 :: r2 =>
                  if continuation b2 then
                    match r2 with
                    | [] => true
                    | b3 :: r3 =>
                        if continuation b3 then cut_short r3 else cut_short r2
                    end
                  else cut_short r1
              end
            else cut_short r0
        end
      else cut_short r0
  end.

(** The body [{"error":"é"}] in two Buffers, cut between the two bytes of
    its [é]. *)
Definition error_body_start : Buffer :=
  str "{" ++ quoted "error" ++ str ":" ++ [34; 195]%N.

Definition error_body_end : Buffer := [169; 34; 125]%N.

(** A weather service where the request for Tokyo neither ends nor fails. *)
Definition tokyo_stalls (url : jsstring) : transport :=
  if Str.eqb (city_of_url url) (str "tokyo") then Stalled
  else Delivered [london_body].

(** The entry of the aggregate that a quote of one city amounts to. *)
Definition summary (q : RateQuote) : CityQuote :=
  {| quote_city := rate_quote_city q;
     quote_weather := {|
       summary_temperature := quoted_temperature (rate_quote_weather q);
       summary_conditions := quoted_conditions (rate_quote_weather q) |};
     quote_rates := rates q |}.

(** What the single-city endpoint contributes to the aggregate. *)
Definition contribution {E} (answer : promise (Response (RateQuote + E)))
  : list CityQuote :=
  match answer with
  | Fulfilled {| status := 200; body := inl q |} => [summary q]
  | _ => []
  end.

(** The two answers of GET /api/quotes/:id. *)
Definition found (q : QuoteService.Quote)
  : Response (QuoteService.Quote + QuoteService.ErrorBody) :=
  {| status := 200; body := inl q |}.

Definition not_found
  : Response (QuoteService.Quote + QuoteService.ErrorBody) :=
  {| status := 404; body := inr {| QuoteService.error := str "Quote not found" |} |}.

(** A natural number written in decimal. *)
Definition decimal (n : nat) : jsstring :=
  str (NilEmpty.string_of_uint (Nat.to_uint n)).

(** The rest of a parameter after its digits: nothing, or something that
    does not start with a decimal digit. *)
Definition no_digit_ahead (t : jsstring) : Prop :=
  match t with
  | [] => True
  | c :: _ => digit_value 10 c = None
  end.

(** A mantissa before any bit is shifted out of it. *)
Definition start (m : Z) : shr_record :=
  {| shr_m := m; shr_r := false; shr_s := false |}.

(* ================================================================= *)
(** ** Tactics *)

(** Names the adjustment and the reason each rule chain selects, keeping the
    chain as an equation. *)
Ltac name_rules :=
  unfold calculateRates;
  repeat match goal with
    | |- context [match ?e with pair _ _ => _ end] =>
        let a := fresh "adjust" in
        let r := fresh "reason" in
        let E := fresh "Rule" in
        destruct e as [a r] eqn:E
    end;
  cbv beta iota zeta delta [push app].

(** Runs one rule chain: every way its conditions can turn out. *)
Ltac run_rule E :=
  repeat match type of E with
    | context [if ?c then _ else _] => destruct c eqn:?
    end;
  inversion E; subst; clear E.

(** One goal per quote of the list. *)
Ltac each_quote H :=
  cbn [In] in H;
  destruct H as [<- | [<- | [<- | [<- | []]]]];
  cbn [utility baseRate unit weatherAdjustment adjustedRate reason].

Ltac push_fst :=
  repeat match goal with
    | |- context [fst (if ?c then _ else _)] => destruct c
    end; reflexivity.

Ltac decide_comparison H :=
  match type of H with
  | (?b = true <-> ?P) =>
      let Y := fresh "Cmp" in
      destruct b;
      [ assert (Y : P) by (apply H; reflexivity)
      | assert (Y : ~ P)
          by (let A := fresh in intros A; apply H in A; discriminate A) ];
      clear H
  end.

Ltac pick_member :=
  cbn [In]; repeat first [left; reflexivity | right].

Ltac refute_constants :=
  match goal with
  | E : Some _ = Some _ |- _ => vm_compute in E; discriminate E
  | E : @eq Num.number _ _ |- _ => vm_compute in E; discriminate E
  end.

Ltac constants_apart :=
  repeat split; intros;
  try reflexivity; try lra; try tauto;
  try match goal with
    | E : Some _ = Some _ |- _ => vm_compute in E; discriminate E
    end.

Ltac each_row H :=
  unfold price_list in H; cbn [In] in H;
  repeat match type of H with
    | _ \/ _ => destruct H as [H | H]
    end;
  [ injection H as <- <- <- <- <- .. | contradiction H ].

(** One goal per row of the table [B] of threshold tests of [t]. *)
Ltac in_each_band t B :=
  let b1 := fresh "b" in set (b1 := Num.lt t (Num.int 32)) in *;
  let b2 := fresh "b" in set (b2 := Num.lt t (Num.int 40)) in *;
  let b3 := fresh "b" in set (b3 := Num.lt t (Num.int 50)) in *;
  let b4 := fresh "b" in set (b4 := Num.ge t (Num.int 65)) in *;
  let b5 := fresh "b" in set (b5 := Num.le t (Num.int 75)) in *;
  let b6 := fresh "b" in set (b6 := Num.gt t (Num.int 80)) in *;
  let b7 := fresh "b" in set (b7 := Num.gt t (Num.int 85)) in *;
  clearbody b1 b2 b3 b4 b5 b6 b7;
  simpl in B;
  repeat match type of B with
    | _ \/ _ => destruct B as [B | B]
    end;
  [ injection B as <- <- <- <- <- <- <- .. | contradiction B ].

Ltac one_of_the_quotes :=
  eexists; split; [reflexivity | unfold QuoteService.quotes; cbn [In]; tauto].

(* ================================================================= *)
(** ** Numbers and strings behave as in JavaScript *)

Example one_tenth : Num.dec 1 1 = S754_finite false 0x1999999999999A (-56).
Proof. reflexivity. Qed.

Example sum_of_tenths :
  Num.add (Num.dec 1 1) (Num.dec 2 1) <> Num.dec 3 1
  /\ Num.add (Num.dec 1 1) (Num.dec 2 1) = Num.dec 30000000000000004 17.
Proof. split; [discriminate | reflexivity]. Qed.

Example Math_round_ties :
  Num.Math_round (Num.dec 25 1) = Num.int 3
  /\ Num.Math_round (Num.neg (Num.dec 25 1)) = Num.int (-2)
  /\ Num.Math_round (Num.neg (Num.dec 5 1)) = S754_zero true
  /\ Num.Math_round (Num.dec 49999999999999994 17) = S754_zero false
  /\ Num.Math_round S754_nan = S754_nan.
Proof. repeat split. Qed.

Example comparisons_with_NaN :
  Num.gt S754_nan (Num.int 85) = false
  /\ Num.lt S754_nan (Num.int 40) = false
  /\ Num.ge S754_nan (Num.int 65) = false
  /\ Num.le S754_nan (Num.int 75) = false.
Proof. repeat split. Qed.

Example lower_case :
  toLowerCase (str "Heavy RAIN, Overcast") = str "heavy rain, overcast".
Proof. reflexivity. Qed.

Lemma startsWith_spec (t s : jsstring) :
  startsWith s t = true <-> exists post, s = t ++ post.
Proof.
  revert s. induction t as [|b t IH]; intros s.
  - split; [intros _; exists s; reflexivity | intros _; destruct s; reflexivity].
  - destruct s as [|a s]; cbn [startsWith].
    + split; [discriminate | intros [post H]; discriminate H].
    + rewrite andb_true_iff, N.eqb_eq, IH. split.
      * intros [-> [post ->]]. exists post. reflexivity.
      * intros [post H]. injection H as -> ->. split; [reflexivity|].
        exists post. reflexivity.
Qed.

(** [includes] is the occurrence of a substring. *)
Lemma includes_spec (s t : jsstring) :
  includes s t = true <-> exists pre post, s = pre ++ t ++ post.
Proof.
  induction s as [|a s IH].
  - cbn [includes]. rewrite orb_false_r, startsWith_spec. split.
    + intros [post H]. exists [], post. exact H.
    + intros [pre [post H]]. destruct pre; [|discriminate H].
      exists post. exact H.
  - cbn [includes]. rewrite orb_true_iff, startsWith_spec, IH. split.
    + intros [[post H] | [pre [post H]]].
      * exists [], post. exact H.
      * exists (a :: pre), post. rewrite H. reflexivity.
    + intros [pre [post H]]. destruct pre as [|a' pre].
      * left. exists post. exact H.
      * right. injection H as _ H. exists pre, post. exact H.
Qed.

(** A keyword that lower-casing leaves alone and that occurs in a string
    still occurs once the string is lower-cased. *)
Lemma includes_toLowerCase (s t : jsstring) :
  toLowerCase t = t ->
  includes s t = true -> includes (toLowerCase s) t = true.
Proof.
  intros Ht. rewrite !includes_spec. intros [pre [post ->]].
  exists (toLowerCase pre), (toLowerCase post).
  unfold toLowerCase in *. rewrite !flat_map_app, Ht. reflexivity.
Qed.

(** [Math.round] of a number with a fractional part is the floor of its
    value plus one half. *)
Lemma Math_round_floor (s : bool) (m : positive) (e : Z) :
  e < 0 ->
  exists v,
    Num.to_Q (S754_finite s m e) = Some v
    /\ Num.Math_round (S754_finite s m e)
       = let n := Qfloor (Qplus v (Qmake 1 2)) in
         if n =? 0 then S754_zero s else Num.int n.
Proof.
  intros He. unfold Num.to_Q, Num.Math_round.
  destruct (0 <=? e) eqn:E; [apply Z.leb_le in E; lia|].
  eexists. split; [reflexivity|].
  assert (Hpos : 0 < 2 ^ (- e)) by (apply Z.pow_pos_nonneg; lia).
  assert (Hn : (2 * cond_Zopp s (Z.pos m) + 2 ^ (- e)) / 2 ^ (1 - e)
               = Qfloor (Qplus (Qmake (cond_Zopp s (Z.pos m))
                                  (Z.to_pos (2 ^ (- e)))) (Qmake 1 2))).
  { unfold Qplus, Qfloor. cbn [Qnum Qden].
    rewrite Pos2Z.inj_mul, Z2Pos.id by exact Hpos.
    replace (1 - e) with (Z.succ (- e)) by lia.
    rewrite Z.pow_succ_r by lia.
    f_equal; lia. }
  cbv zeta. rewrite <- Hn. reflexivity.
Qed.

Example parse_weather_body :
  JSON.parse london_body
  = Ok (VObject [ (str "city", VString (str "London"));
                  (str "temperature", VNumber (Num.dec 525 1));
                  (str "conditions", VString (str "Light Rain"));
                  (str "humidity", VNumber (Num.int 81)) ]).
Proof. vm_compute. reflexivity. Qed.

Example parse_rejects :
  map JSON.parse
    [ str ""; str "nul"; str "01"; str "1."; str "[1,]"; str "{,}";
      str "[1 2]"; str "{} {}"; str "<html>"; str "'a'" ]
  = repeat (Throw SyntaxError) 10.
Proof. vm_compute. reflexivity. Qed.

(* ================================================================= *)
(** ** calculateRates *)

Lemma calculateRates_shape (w : WeatherData) :
  exists q1 q2 q3 q4,
    calculateRates w = [q1; q2; q3; q4]
    /\ utility q1 = str "Electricity" /\ utility q2 = str "Natural Gas"
    /\ utility q3 = str "Water" /\ utility q4 = str "Solar Buyback".
Proof.
  name_rules. do 4 eexists. split; [reflexivity|]. repeat split.
Qed.

(** C8. For every weather reading [calculateRates] returns exactly four
    quotes, in the order Electricity, Natural Gas, Water, Solar Buyback, and
    the base rate and unit of each are the constants of the base rate table:
    0.12 per kWh, 1.05 per therm, 0.004 per gallon, 0.08 per kWh. *)
Theorem calculateRates_order_and_base_rates (w : WeatherData) :
  map (fun q => (utility q, baseRate q, unit q)) (calculateRates w)
  = [ (str "Electricity",   Num.dec 12 2,  str "kWh");
      (str "Natural Gas",   Num.dec 105 2, str "therm");
      (str "Water",         Num.dec 4 3,   str "gallon");
      (str "Solar Buyback", Num.dec 8 2,   str "kWh") ]
  /\ map (fun q => (baseRate q, unit q)) (calculateRates w)
     = map (fun b => (rate b, rate_unit b))
         [ baseRates.electricity; baseRates.naturalGas;
           baseRates.water; baseRates.solar ].
Proof.
  name_rules. split; reflexivity.
Qed.

(** C1. For every weather reading, each of the four quotes has
    adjustedRate = round(baseRate + weatherAdjustment) at the precision of
    its utility: 3 decimals for Electricity and Solar Buyback, 2 for Natural
    Gas, 4 for Water. The rounding on the right is the specification's, on
    the exact value of the sum; the one of the code multiplies, rounds to an
    integer and divides in binary64. *)
Theorem adjustedRate_is_rounded_sum (w : WeatherData) (q : UtilityRate) :
  In q (calculateRates w) ->
  adjustedRate q
  = round_decimals (decimals (utility q))
      (Num.add (baseRate q) (weatherAdjustment q)).
Proof.
  name_rules. intros H. each_quote H.
  - run_rule Rule; vm_compute; reflexivity.
  - run_rule Rule0; vm_compute; reflexivity.
  - run_rule Rule1; vm_compute; reflexivity.
  - run_rule Rule2; vm_compute; reflexivity.
Qed.

Lemma adjustedRate_is_rounded_sum_witness :
  In drought_quote (calculateRates (reading 90 "sunny" 20 (str "phoenix")))
  /\ adjustedRate drought_quote
     = round_decimals 4 (Num.add (Num.dec 4 3) (Num.dec 2 3)).
Proof.
  assert (H : In drought_quote
                (calculateRates (reading 90 "sunny" 20 (str "phoenix")))).
  { vm_compute. right; right; left; reflexivity. }
  split; [exact H|].
  exact (adjustedRate_is_rounded_sum _ _ H).
Defined.

(** The adjustment of each quote is one of the constants of its rule chain,
    and the adjusted rate is the decimal sum of base rate and adjustment. *)
Lemma adjustments_are_enumerated (w : WeatherData) (q : UtilityRate) :
  In q (calculateRates w) ->
  In (utility q, weatherAdjustment q, adjustedRate q)
    [ (str "Electricity", Num.dec 4 2, Num.dec 16 2);
      (str "Electricity", Num.dec 3 2, Num.dec 15 2);
      (str "Electricity", Num.neg (Num.dec 2 2), Num.dec 10 2);
      (str "Electricity", Num.int 0, Num.dec 12 2);
      (str "Natural Gas", Num.dec 45 2, Num.dec 150 2);
      (str "Natural Gas", Num.dec 25 2, Num.dec 130 2);
      (str "Natural Gas", Num.neg (Num.dec 15 2), Num.dec 90 2);
      (str "Natural Gas", Num.int 0, Num.dec 105 2);
      (str "Water", Num.dec 2 3, Num.dec 6 3);
      (str "Water", Num.neg (Num.dec 1 3), Num.dec 3 3);
      (str "Water", Num.int 0, Num.dec 4 3);
      (str "Solar Buyback", Num.dec 3 2, Num.dec 11 2);
      (str "Solar Buyback", Num.neg (Num.dec 2 2), Num.dec 6 2);
      (str "Solar Buyback", Num.neg (Num.dec 4 2), Num.dec 4 2);
      (str "Solar Buyback", Num.int 0, Num.dec 8 2) ].
Proof.
  name_rules. intros H. each_quote H.
  - run_rule Rule; vm_compute; tauto.
  - run_rule Rule0; vm_compute; tauto.
  - run_rule Rule1; vm_compute; tauto.
  - run_rule Rule2; vm_compute; tauto.
Qed.

(** C2. At a temperature of exactly 85 the Electricity quote has adjustment
    0 and reason "Standard rate"; at exactly 65 and at exactly 75 it has
    adjustment -0.02 and reason "Low HVAC demand - mild weather". *)
Theorem electricity_boundaries (c conds : jsstring) (hum : Num.number) :
  let at_temp t :=
    quote_for (str "Electricity")
      (calculateRates {| city := c; temperature := Num.int t;
                         conditions := conds; humidity := hum |}) in
  let adjustment_and_reason :=
    option_map (fun q => (weatherAdjustment q, reason q)) in
  adjustment_and_reason (at_temp 85)
    = Some (Num.int 0, str "Standard rate")
  /\ adjustment_and_reason (at_temp 65)
    = Some (Num.neg (Num.dec 2 2), str "Low HVAC demand - mild weather")
  /\ adjustment_and_reason (at_temp 75)
    = Some (Num.neg (Num.dec 2 2), str "Low HVAC demand - mild weather").
Proof.
  cbv zeta. repeat split; name_rules.
  all: cbn [temperature] in Rule; vm_compute in Rule; inversion Rule; subst.
  all: reflexivity.
Qed.

(** C3. The water rules are tried in order and the first match wins: with
    humidity < 30 and temperature > 80 the Water quote has adjustment +0.002,
    whatever the conditions say, rain included; the adjustment is -0.001
    exactly when the drought condition fails and the lower-cased conditions
    contain "rain". *)
Theorem water_rules_in_order (w : WeatherData) :
  exists q,
    quote_for (str "Water") (calculateRates w) = Some q
    /\ (Num.lt (humidity w) (Num.int 30) = true ->
        Num.gt (temperature w) (Num.int 80) = true ->
        weatherAdjustment q = Num.dec 2 3)
    /\ (weatherAdjustment q = Num.neg (Num.dec 1 3) <->
        ~ (Num.lt (humidity w) (Num.int 30) = true
           /\ Num.gt (temperature w) (Num.int 80) = true)
        /\ includes (toLowerCase (conditions w)) (str "rain") = true).
Proof.
  name_rules. eexists. split; [reflexivity|].
  cbn [weatherAdjustment].
  destruct (Num.lt (humidity w) (Num.int 30)) eqn:Hh;
    destruct (Num.gt (temperature w) (Num.int 80)) eqn:Ht;
    destruct (includes (toLowerCase (conditions w)) (str "rain")) eqn:Hr;
    cbn [andb] in Rule1; inversion Rule1; subst; clear Rule1.
  all: split; [intros; try reflexivity; discriminate|].
  all: split; [intros E; try (vm_compute in E; discriminate E) | intros [D R]].
  all: try discriminate R.
  all: try (exfalso; apply D; split; reflexivity).
  all: try reflexivity.
  all: split; [intros [? ?]; discriminate | reflexivity].
Qed.

Lemma water_rules_in_order_witness :
  let w := reading 90 "Heavy Rain" 20 (str "phoenix") in
  includes (toLowerCase (conditions w)) (str "rain") = true
  /\ exists q, quote_for (str "Water") (calculateRates w) = Some q
       /\ weatherAdjustment q = Num.dec 2 3.
Proof.
  intros w. split; [reflexivity|].
  destruct (water_rules_in_order w) as (q & Hq & Hdrought & _).
  exists q. split; [exact Hq|].
  apply Hdrought; reflexivity.
Defined.

(** C4. Solar Buyback tries "cloud"/"overcast" before "rain"/"storm": when
    the lower-cased conditions contain "cloud" and neither "sunny" nor
    "clear", the adjustment is -0.02, rain or not. For temperature 70,
    conditions "cloudy, light rain" and humidity 60 the adjusted rates are
    Electricity 0.10, Natural Gas 1.05, Water 0.003, Solar Buyback 0.06, the
    last by the cloud rule. *)
Theorem solar_cloud_before_rain :
  (forall w : WeatherData,
     let conds := toLowerCase (conditions w) in
     includes conds (str "cloud") = true ->
     includes conds (str "sunny") = false ->
     includes conds (str "clear") = false ->
     option_map (fun q => (weatherAdjustment q, reason q))
       (quote_for (str "Solar Buyback") (calculateRates w))
     = Some (Num.neg (Num.dec 2 2), str "Reduced solar output"))
  /\ (forall c : jsstring,
        let w := reading 70 "cloudy, light rain" 60 c in
        includes (toLowerCase (conditions w)) (str "rain") = true
        /\ map (fun q => (utility q, adjustedRate q)) (calculateRates w)
           = [ (str "Electricity",   Num.dec 10 2);
               (str "Natural Gas",   Num.dec 105 2);
               (str "Water",         Num.dec 3 3);
               (str "Solar Buyback", Num.dec 6 2) ]
        /\ option_map (fun q => (weatherAdjustment q, reason q))
             (quote_for (str "Solar Buyback") (calculateRates w))
           = Some (Num.neg (Num.dec 2 2), str "Reduced solar output")).
Proof.
  split.
  - intros w conds Hcloud Hsunny Hclear. subst conds. name_rules.
    rewrite Hcloud, Hsunny, Hclear in Rule2. cbn [orb] in Rule2.
    inversion Rule2; subst. reflexivity.
  - intros c w. subst w. repeat split; vm_compute; reflexivity.
Qed.

Lemma solar_cloud_before_rain_witness :
  let w := reading 70 "cloudy, light rain" 60 (str "london") in
  includes (toLowerCase (conditions w)) (str "rain") = true
  /\ option_map (fun q => (weatherAdjustment q, reason q))
       (quote_for (str "Solar Buyback") (calculateRates w))
     = Some (Num.neg (Num.dec 2 2), str "Reduced solar output").
Proof.
  intros w. split; [reflexivity|].
  apply (proj1 solar_cloud_before_rain w); reflexivity.
Defined.

(** C5. For temperature 90, conditions "sunny", humidity 20 the adjusted
    rates are Electricity 0.16, Natural Gas 0.90, Water 0.006 and Solar
    Buyback 0.11; for temperature 25, conditions "clear", humidity 50 they
    are Electricity 0.15, Natural Gas 1.50, Water 0.004 and Solar Buyback
    0.11. *)
Theorem literal_scenarios (c : jsstring) :
  map (fun q => (utility q, adjustedRate q))
    (calculateRates (reading 90 "sunny" 20 c))
  = [ (str "Electricity",   Num.dec 16 2);
      (str "Natural Gas",   Num.dec 90 2);
      (str "Water",         Num.dec 6 3);
      (str "Solar Buyback", Num.dec 11 2) ]
  /\ map (fun q => (utility q, adjustedRate q))
       (calculateRates (reading 25 "clear" 50 c))
     = [ (str "Electricity",   Num.dec 15 2);
         (str "Natural Gas",   Num.dec 150 2);
         (str "Water",         Num.dec 4 3);
         (str "Solar Buyback", Num.dec 11 2) ].
Proof.
  split; vm_compute; reflexivity.
Qed.

(** C9. [calculateRates] is a total, deterministic function of its
    argument: equal readings give identical quotes, the quotes depend on
    nothing but the temperature, the conditions and the humidity read from
    the argument, and every reading, whatever numbers it holds, NaN and the
    infinities included, gives four quotes whose number fields are finite
    binary64 values. *)
Theorem calculateRates_deterministic_total :
  (forall w1 w2 : WeatherData,
     w1 = w2 -> calculateRates w1 = calculateRates w2)
  /\ (forall w1 w2 : WeatherData,
        temperature w1 = temperature w2 ->
        conditions w1 = conditions w2 ->
        humidity w1 = humidity w2 ->
        calculateRates w1 = calculateRates w2)
  /\ (forall w : WeatherData,
        exists q1 q2 q3 q4,
          calculateRates w = [q1; q2; q3; q4]
          /\ forallb well_formed [q1; q2; q3; q4] = true).
Proof.
  split; [|split].
  - intros w1 w2 ->. reflexivity.
  - intros w1 w2 Ht Hc Hh. unfold calculateRates.
    rewrite Ht, Hc, Hh. reflexivity.
  - intros w. name_rules. do 4 eexists. split; [reflexivity|].
    cbn [forallb]. rewrite !andb_true_iff. repeat split.
    + run_rule Rule; vm_compute; reflexivity.
    + run_rule Rule0; vm_compute; reflexivity.
    + run_rule Rule1; vm_compute; reflexivity.
    + run_rule Rule2; vm_compute; reflexivity.
Qed.

Lemma calculateRates_deterministic_total_witness :
  calculateRates (reading 25 "clear" 50 (str "oslo"))
  = calculateRates (reading (5 * 5) "clear" (100 / 2) (str "oslo")).
Proof.
  apply (proj1 calculateRates_deterministic_total). reflexivity.
Defined.

(* ================================================================= *)
(** ** fetchWeather *)

(** The ways the ['end'] listener settles the promise. *)
Lemma on_end_cases (data : jsstring) :
  on_end data =
  match JSON.parse data with
  | Throw _ => Rejected InvalidResponseError
  | Ok parsed =>
      match Get parsed (str "error") with
      | Throw _ => Rejected InvalidResponseError
      | Ok error =>
          if ToBoolean error then
            if ToString_throws error then Rejected InvalidResponseError
            else Rejected (Error_new error)
          else Fulfilled parsed
      end
  end.
Proof.
  unfold on_end, new_Error, bind.
  destruct (JSON.parse data) as [parsed|]; [|reflexivity].
  destruct (Get parsed (str "error")) as [error|]; [|reflexivity].
  destruct (ToBoolean error); [|reflexivity].
  destruct (ToString_throws error); reflexivity.
Qed.

Lemma Get_Ok_iff (v : value) (key : jsstring) :
  (exists x, Get v key = Ok x) <-> v <> VNull /\ v <> VUndefined.
Proof.
  split.
  - intros [x H]. destruct v; simpl in H; try discriminate; split; discriminate.
  - intros [Hn Hu]. destruct v; simpl; try (eexists; reflexivity); congruence.
Qed.

Lemma fetchWeather_delivered env http_get city chunks :
  http_get (weather_url env city) = Delivered chunks ->
  fetchWeather env http_get city = on_end (received chunks).
Proof.
  unfold fetchWeather, weather_url, received. intros ->. reflexivity.
Qed.

(** A failure of the transport is the rejection of the promise. *)
Lemma fetchWeather_transport_failure env http_get city e :
  http_get (weather_url env city) = Failed e ->
  fetchWeather env http_get city = Rejected e.
Proof.
  unfold fetchWeather, weather_url. intros ->. reflexivity.
Qed.

(** C6, as the code has it. When the transport delivers a body,
    [fetchWeather(city)] resolves with the parsed body exactly when the body
    parses as JSON, the parsed value is not [null] and its [error] property
    is absent or falsy. When [error] is a non-empty string the promise is
    rejected with an Error carrying that string as message, and any other
    truthy [error] rejects it as well. A body that is not valid JSON is
    rejected with the message "Invalid response from weather service", and
    so is the valid body [null]. *)
Theorem fetchWeather_outcomes
  (env : option jsstring) (http_get : jsstring -> transport)
  (city : jsstring) (chunks : list jsstring) :
  http_get (weather_url env city) = Delivered chunks ->
  let data := received chunks in
  (forall v,
     fetchWeather env http_get city = Fulfilled v <->
     JSON.parse data = Ok v
     /\ v <> VNull
     /\ exists e, Get v (str "error") = Ok e /\ ToBoolean e = false)
  /\ (forall v s,
        JSON.parse data = Ok v ->
        Get v (str "error") = Ok (VString s) ->
        s <> [] ->
        fetchWeather env http_get city = Rejected (Error_new (VString s))
        /\ message (Error_new (VString s)) = Some s)
  /\ (forall v e,
        JSON.parse data = Ok v ->
        Get v (str "error") = Ok e ->
        ToBoolean e = true ->
        fetchWeather env http_get city
        = Rejected (if ToString_throws e then InvalidResponseError
                    else Error_new e))
  /\ (JSON.parse data = Throw SyntaxError \/ JSON.parse data = Ok VNull ->
      fetchWeather env http_get city = Rejected InvalidResponseError).
Proof.
  intros Hget data. rewrite (fetchWeather_delivered _ _ _ _ Hget).
  fold data. rewrite on_end_cases. split; [|split; [|split]].
  - intros v. split.
    + destruct (JSON.parse data) as [parsed|]; [|discriminate].
      destruct (Get parsed (str "error")) as [error|] eqn:G; [|discriminate].
      destruct (ToBoolean error) eqn:B.
      * destruct (ToString_throws error); discriminate.
      * intros [= ->]. split; [reflexivity|]. split.
        -- intros ->. discriminate G.
        -- exists error. split; [exact G | exact B].
    + intros (-> & _ & e & -> & ->). reflexivity.
  - intros v s -> -> Hs. split; [|reflexivity].
    destruct s; [congruence|]. reflexivity.
  - intros v e -> -> ->. destruct (ToString_throws e); reflexivity.
  - intros [-> | ->]; reflexivity.
Qed.

Lemma fetchWeather_outcomes_witness :
  fetchWeather None (always not_found_body) (str "atlantis")
  = Rejected (Error_new (VString (str "not found")))
  /\ message (Error_new (VString (str "not found"))) = Some (str "not found").
Proof.
  refine (proj1 (proj2 (fetchWeather_outcomes None (always not_found_body)
                          (str "atlantis") [not_found_body] _))
            (VObject [(str "error", VString (str "not found"))])
            (str "not found") _ _ _).
  - reflexivity.
  - vm_compute. reflexivity.
  - reflexivity.
  - discriminate.
Defined.

(** C6 as the specification states it fails twice. The body [null] parses
    as JSON and has no [error] field, and the promise is rejected. The body
    [{"error":""}] has an [error] field, and the promise resolves with it. *)
Lemma fetchWeather_outcomes_counterexample :
  ~ resolves_iff_no_error_field (str "null")
  /\ ~ error_field_rejects empty_error_body.
Proof.
  split.
  - intros H. destruct (H (str "atlantis") VNull) as [_ Hresolves].
    assert (Hcontra : fetchWeather None (always (str "null")) (str "atlantis")
                      = Fulfilled VNull).
    { apply Hresolves. split; reflexivity. }
    vm_compute in Hcontra. discriminate Hcontra.
  - intros H.
    destruct (H (str "atlantis") (VObject [(str "error", VString [])]))
      as [e He]; [vm_compute; reflexivity | reflexivity |].
    vm_compute in He. discriminate He.
Qed.

(** What the two bodies do. *)
Lemma null_and_empty_error_bodies (city : jsstring) :
  fetchWeather None (always (str "null")) city = Rejected InvalidResponseError
  /\ fetchWeather None (always empty_error_body) city
     = Fulfilled (VObject [(str "error", VString [])]).
Proof.
  split; vm_compute; reflexivity.
Qed.

(** From the body on the wire to the quotes: a body of the documented shape
    resolves, reads as a [WeatherData], and is priced by the rules. *)
Example london_end_to_end :
  exists v w,
    fetchWeather None (always london_body) (str "london") = Fulfilled v
    /\ as_WeatherData v = Some w
    /\ map (fun q => (utility q, weatherAdjustment q, adjustedRate q))
         (calculateRates w)
       = [ (str "Electricity",   Num.int 0,               Num.dec 12 2);
           (str "Natural Gas",   Num.int 0,               Num.dec 105 2);
           (str "Water",         Num.neg (Num.dec 1 3),   Num.dec 3 3);
           (str "Solar Buyback", Num.neg (Num.dec 4 2),   Num.dec 4 2) ].
Proof.
  do 2 eexists. split; [vm_compute; reflexivity|].
  split; [vm_compute; reflexivity|].
  vm_compute. reflexivity.
Qed.

(** C10. The body [null] is valid JSON and has no [error] field, yet
    reading [error] from it throws inside the [try] block, so the promise is
    rejected with the message "Invalid response from weather service". *)
Theorem null_body_is_rejected_as_invalid
  (env : option jsstring) (city : jsstring) :
  JSON.parse (str "null") = Ok VNull
  /\ has_error_field VNull = false
  /\ Get VNull (str "error") = Throw TypeError
  /\ fetchWeather env (always (str "null")) city
     = Rejected InvalidResponseError
  /\ message InvalidResponseError
     = Some (str "Invalid response from weather service").
Proof.
  repeat split.
Qed.

(* ================================================================= *)
(** ** Conversions at run time *)

Lemma value_induction (P : value -> Prop) :
  P VUndefined -> P VNull -> (forall b, P (VBool b)) ->
  (forall x, P (VNumber x)) -> (forall s, P (VString s)) ->
  (forall elems, Forall P elems -> P (VArray elems)) ->
  (forall props, P (VObject props)) ->
  forall v, P v.
Proof.
  intros HU HN HB HX HS HA HO. fix IH 1.
  intros [ | | b | x | s | elems | props];
    [exact HU | exact HN | apply HB | apply HX | apply HS | | apply HO].
  apply HA. induction elems as [|e elems IHe]; constructor; [apply IH | exact IHe].
Qed.

(** A conversion to a string throws exactly when [ToString_throws] says so,
    and what it throws is a TypeError. *)
Lemma ToString_cases (v : value) :
  if ToString_throws v then ToString v = Throw TypeError
  else exists text, ToString v = Ok text.
Proof.
  induction v as [ | | b | x | s | elems IH | props] using value_induction;
    try (cbn; eexists; reflexivity).
  - cbn [ToString_throws ToString].
    match goal with
    | |- context [?join elems true] =>
        enough (J : forall first,
                   if existsb ToString_throws elems
                   then join elems first = Throw TypeError
                   else exists text, join elems first = Ok text)
          by apply J
    end.
    induction IH as [|e elems He _ IHelems]; intros first.
    + cbn. eexists; reflexivity.
    + specialize (IHelems false).
      assert (Helem : if ToString_throws e
                      then match e with
                           | VUndefined | VNull => Ok []
                           | _ => ToString e
                           end = Throw TypeError
                      else exists text,
                          match e with
                          | VUndefined | VNull => Ok []
                          | _ => ToString e
                          end = Ok text).
      { destruct e; try exact He; cbn; eexists; reflexivity. }
      clear He. simpl in *.
      destruct (ToString_throws e).
      * rewrite Helem. reflexivity.
      * destruct Helem as [text ->]. cbn [orb bind].
        destruct (existsb ToString_throws elems).
        -- rewrite IHelems. reflexivity.
        -- destruct IHelems as [more ->]. cbn [bind]. eexists; reflexivity.
  - cbn. destruct (existsb _ props); [reflexivity | eexists; reflexivity].
Qed.

(** A conversion to a number throws exactly when the value is an array or
    an object whose conversion to a string throws. *)
Lemma ToNumber_cases (v : value) :
  if ToString_throws v then ToNumber v = Throw TypeError
  else exists n, ToNumber v = Ok n.
Proof.
  pose proof (ToString_cases v) as H. unfold ToNumber, ToPrimitive.
  destruct v; try (cbn; eexists; reflexivity).
  - destruct (ToString_throws (VArray elems)).
    + rewrite H. reflexivity.
    + destruct H as [text ->]. cbn. eexists; reflexivity.
  - destruct (ToString_throws (VObject props)).
    + rewrite H. reflexivity.
    + destruct H as [text ->]. cbn. eexists; reflexivity.
Qed.

Lemma ToNumber_of_number (x : Num.number) : ToNumber (VNumber x) = Ok x.
Proof. reflexivity. Qed.

Lemma if_Ok {A} (b : bool) (x y : A) :
  (if b then Ok x else Ok y) = Ok (if b then x else y).
Proof. destruct b; reflexivity. Qed.

(* ================================================================= *)
(** ** calculateRates at run time *)

(** What [calculateRates] does with whatever value it is given: it throws
    unless the value has a string as [conditions], converts [temperature]
    and [humidity] to numbers, and prices the reading they make. *)
Lemma calculateRates_at_run_time (weather : value) :
  RunTime.calculateRates weather =
  match Get weather (str "temperature"), Get weather (str "conditions"),
        Get weather (str "humidity") with
  | Ok temp, Ok (VString conds), Ok hum =>
      t <- ToNumber temp ;;
      h <- ToNumber hum ;;
      Ok (calculateRates {| city := []; temperature := t;
                            conditions := conds; humidity := h |})
  | _, _, _ => Throw TypeError
  end.
Proof.
  unfold RunTime.calculateRates.
  destruct (Get weather (str "temperature")) as [temp|e] eqn:Gt.
  2: { destruct weather; cbn in Gt; try discriminate Gt;
         injection Gt as <-; reflexivity. }
  cbn [bind].
  destruct (Get weather (str "conditions")) as [conds|e] eqn:Gc.
  2: { destruct weather; cbn in Gc; try discriminate Gc;
         injection Gc as <-; reflexivity. }
  cbn [bind].
  destruct conds as [ | | b | x | conds | elems | props];
    try (cbn [RunTime.call_toLowerCase bind];
         destruct (Get weather (str "humidity")); reflexivity).
  cbn [RunTime.call_toLowerCase bind].
  destruct (Get weather (str "humidity")) as [hum|e] eqn:Gh.
  2: { destruct weather; cbn in Gh; try discriminate Gh;
         injection Gh as <-; reflexivity. }
  cbn [bind].
  unfold RunTime.gt, RunTime.lt, RunTime.ge, RunTime.le.
  destruct (ToNumber temp) as [t|e]; [|reflexivity].
  cbn [bind].
  destruct (ToNumber hum) as [h|e]; cbn [bind].
  - unfold calculateRates. cbn [temperature conditions humidity].
    repeat (rewrite !if_Ok; cbn [bind]). unfold andb.
    repeat match goal with
    | |- context [let '(a, b) := ?p in _] => destruct p
    end.
    reflexivity.
  - repeat (rewrite !if_Ok; cbn [bind]).
    repeat match goal with
    | |- context [let '(a, b) := ?p in _] => destruct p
    end.
    reflexivity.
Qed.

(** On a value of the declared type the code at run time is the typed
    code. *)
Lemma calculateRates_of_WeatherData (weather : value) (w : WeatherData) :
  as_WeatherData weather = Some w ->
  RunTime.calculateRates weather = Ok (calculateRates w).
Proof.
  unfold as_WeatherData. rewrite calculateRates_at_run_time.
  destruct (Get weather (str "city")) as [[ | | | | c | | ]|]; try discriminate.
  destruct (Get weather (str "temperature")) as [[ | | | t | | | ]|];
    try discriminate.
  destruct (Get weather (str "conditions")) as [[ | | | | conds | | ]|];
    try discriminate.
  destruct (Get weather (str "humidity")) as [[ | | | h | | | ]|];
    try discriminate.
  intros [= <-]. reflexivity.
Qed.

Lemma Get_field (weather : value) (key : string) :
  weather <> VNull -> weather <> VUndefined ->
  Get weather (str key) = Ok (field weather key).
Proof.
  intros Hn Hu. unfold field.
  destruct weather; try congruence; reflexivity.
Qed.

Lemma calculateRates_throws (weather : value) :
  (exists e, RunTime.calculateRates weather = Throw e) <->
  cannot_be_priced weather.
Proof.
  rewrite calculateRates_at_run_time. unfold cannot_be_priced.
  destruct weather as [ | | b | x | s | elems | props] eqn:W;
    try (split; [intros _; tauto | intros _; eexists; reflexivity]).
  all: rewrite <- W; assert (Hn : weather <> VNull) by (subst; discriminate);
    assert (Hu : weather <> VUndefined) by (subst; discriminate);
    rewrite !(Get_field weather) by assumption; clear W.
  all: pose proof (ToNumber_cases (field weather "temperature")) as Ht;
    pose proof (ToNumber_cases (field weather "humidity")) as Hh.
  all: destruct (field weather "conditions") as [ | | b' | x' | conds | l | l];
    try (split; [intros _; right; right; left; discriminate
                | intros _; eexists; reflexivity]).
  all: destruct (ToString_throws (field weather "temperature")).
  all: try (rewrite Ht; split; [intros _; tauto | intros _; eexists; reflexivity]).
  all: destruct Ht as [t ->]; cbn [bind].
  all: destruct (ToString_throws (field weather "humidity")).
  all: try (rewrite Hh; split; [intros _; tauto | intros _; eexists; reflexivity]).
  all: destruct Hh as [h ->]; cbn [bind].
  all: split; [intros [e E]; discriminate E|].
  all: intros [H | [H | [H | [H | H]]]]; try congruence.
  all: exfalso; apply (H conds); reflexivity.
Qed.

(** Whatever [calculateRates] throws is a TypeError. *)
Lemma calculateRates_throws_TypeError (weather : value) (e : exn) :
  RunTime.calculateRates weather = Throw e -> e = TypeError.
Proof.
  rewrite calculateRates_at_run_time.
  destruct (Get weather (str "temperature")) as [temp|]; [|congruence].
  destruct (Get weather (str "conditions")) as [[ | | | | conds | | ]|];
    try congruence.
  destruct (Get weather (str "humidity")) as [hum|]; [|congruence].
  pose proof (ToNumber_cases temp) as Ht. pose proof (ToNumber_cases hum) as Hh.
  destruct (ToString_throws temp).
  - rewrite Ht. cbn. congruence.
  - destruct Ht as [t ->]. cbn [bind]. destruct (ToString_throws hum).
    + rewrite Hh. cbn. congruence.
    + destruct Hh as [h ->]. discriminate.
Qed.

Lemma priced_is_an_object_or_primitive (weather : value) rates :
  RunTime.calculateRates weather = Ok rates ->
  weather <> VNull /\ weather <> VUndefined.
Proof.
  intros H. split; intros ->; discriminate H.
Qed.

(* ================================================================= *)
(** ** fetchWeather never settles without an event *)

Lemma on_end_settles (data : jsstring) : on_end data <> Pending.
Proof.
  rewrite on_end_cases.
  destruct (JSON.parse data) as [parsed|]; [|discriminate].
  destruct (Get parsed (str "error")) as [error|]; [|discriminate].
  destruct (ToBoolean error); [|discriminate].
  destruct (ToString_throws error); discriminate.
Qed.

Lemma fetchWeather_pending env http_get city :
  fetchWeather env http_get city = Pending <->
  http_get (weather_url env city) = Stalled.
Proof.
  unfold fetchWeather, weather_url.
  destruct (http_get _) as [e | chunks | ]; split; try discriminate;
    try reflexivity.
  intros H. exfalso. exact (on_end_settles _ H).
Qed.

(** A fulfilled value is never [null] nor [undefined]. *)
Lemma fetchWeather_fulfilled env http_get city v :
  fetchWeather env http_get city = Fulfilled v ->
  v <> VNull /\ v <> VUndefined.
Proof.
  unfold fetchWeather. destruct (http_get _) as [e | chunks | ]; try discriminate.
  rewrite on_end_cases.
  destruct (JSON.parse _) as [parsed|]; [|discriminate].
  destruct (Get parsed (str "error")) as [error|] eqn:G; [|discriminate].
  destruct (ToBoolean error); [destruct (ToString_throws error); discriminate|].
  intros [= <-]. split; intros ->; discriminate G.
Qed.

(* ================================================================= *)
(** ** GET /api/rates *)

Section Aggregation.

Variable env : option jsstring.
Variable http_get : jsstring -> transport.

(** One turn of the loop, for a city whose request ends or fails: it never
    throws, and pushes the entries of the city. *)
Lemma loop_body_spec (c : jsstring) (collected : list CityQuote) (w : World) :
  http_get (weather_url env c) <> Stalled ->
  try_catch
    (weather <~ await_fetchWeather env http_get c ;;
     rates <~ eval (RunTime.calculateRates weather) ;;
     weather_city <~ eval (Get weather (str "city")) ;;
     weather_temperature <~ eval (Get weather (str "temperature")) ;;
     weather_conditions <~ eval (Get weather (str "conditions")) ;;
     resolve (push collected {|
       quote_city := weather_city;
       quote_weather := {|
         summary_temperature := weather_temperature;
         summary_conditions := weather_conditions |};
       quote_rates := rates |}))
    (fun _ => resolve collected) w
  = (Fulfilled (collected ++ entries env http_get c),
     {| requested := requested w ++ [c]; clock := clock w |}).
Proof.
  intros Hlive.
  unfold try_catch, async_bind, await_fetchWeather, entries, eval, resolve.
  destruct (fetchWeather env http_get c) as [weather | e | ] eqn:F.
  - destruct (RunTime.calculateRates weather) as [rates|e] eqn:R;
      cbv beta iota.
    + destruct (priced_is_an_object_or_primitive _ _ R) as [Hn Hu].
      rewrite (Get_field weather "city"), (Get_field weather "temperature"),
        (Get_field weather "conditions") by assumption.
      reflexivity.
    + rewrite app_nil_r. reflexivity.
  - cbv beta iota. rewrite app_nil_r. reflexivity.
  - exfalso. apply Hlive. apply fetchWeather_pending. exact F.
Qed.

(** The loop, for any cities whose requests end or fail, any quotes
    collected so far and any world: it never throws, asks for every city in
    turn and appends the entries of each. *)
Lemma loop_spec (cs : list jsstring) :
  (forall c, In c cs -> http_get (weather_url env c) <> Stalled) ->
  forall (collected : list CityQuote) (w : World),
    for_of cs (fun city quotes =>
      try_catch
        (weather <~ await_fetchWeather env http_get city ;;
         rates <~ eval (RunTime.calculateRates weather) ;;
         weather_city <~ eval (Get weather (str "city")) ;;
         weather_temperature <~ eval (Get weather (str "temperature")) ;;
         weather_conditions <~ eval (Get weather (str "conditions")) ;;
         resolve (push quotes {|
           quote_city := weather_city;
           quote_weather := {|
             summary_temperature := weather_temperature;
             summary_conditions := weather_conditions |};
           quote_rates := rates |}))
        (fun _ => resolve quotes)) collected w
    = (Fulfilled (collected ++ flat_map (entries env http_get) cs),
       {| requested := requested w ++ cs; clock := clock w |}).
Proof.
  induction cs as [|c cs IH]; intros Hlive collected w.
  - cbn. rewrite !app_nil_r. destruct w; reflexivity.
  - cbn [for_of]. unfold async_bind at 1.
    rewrite loop_body_spec by (apply Hlive; left; reflexivity).
    rewrite IH by (intros c' Hc'; apply Hlive; right; exact Hc').
    cbn [requested clock flat_map]. rewrite <- !app_assoc. reflexivity.
Qed.

(** A loop that meets a request that neither ends nor fails waits for
    ever. *)
Lemma loop_waits (before after : list jsstring) (c : jsstring) :
  (forall c', In c' before -> http_get (weather_url env c') <> Stalled) ->
  http_get (weather_url env c) = Stalled ->
  forall (collected : list CityQuote) (w : World),
    for_of (before ++ c :: after) (fun city quotes =>
      try_catch
        (weather <~ await_fetchWeather env http_get city ;;
         rates <~ eval (RunTime.calculateRates weather) ;;
         weather_city <~ eval (Get weather (str "city")) ;;
         weather_temperature <~ eval (Get weather (str "temperature")) ;;
         weather_conditions <~ eval (Get weather (str "conditions")) ;;
         resolve (push quotes {|
           quote_city := weather_city;
           quote_weather := {|
             summary_temperature := weather_temperature;
             summary_conditions := weather_conditions |};
           quote_rates := rates |}))
        (fun _ => resolve quotes)) collected w
    = (Pending,
       {| requested := requested w ++ before ++ [c]; clock := clock w |}).
Proof.
  intros Hlive Hstall.
  induction before as [|b before IH]; intros collected w.
  - cbn [app for_of]. unfold async_bind at 1.
    unfold try_catch, async_bind, await_fetchWeather.
    rewrite (proj2 (fetchWeather_pending env http_get c) Hstall). reflexivity.
  - cbn [app for_of]. unfold async_bind at 1.
    rewrite loop_body_spec by (apply Hlive; left; reflexivity).
    rewrite IH by (intros c' Hc'; apply Hlive; right; exact Hc').
    cbn [requested clock]. rewrite <- !app_assoc. reflexivity.
Qed.

(** Every city whose request ends or fails is quoted, fails to be fetched,
    or cannot be priced. *)
Lemma entries_count (cs : list jsstring) :
  (forall c, In c cs -> http_get (weather_url env c) <> Stalled) ->
  (List.length (flat_map (entries env http_get) cs)
   + List.length (filter (fetch_failed env http_get) cs)
   + List.length (filter (unpriced env http_get) cs)
   = List.length cs)%nat.
Proof.
  induction cs as [|c cs IH]; intros Hlive; [reflexivity|].
  cbn [flat_map filter]. rewrite length_app.
  specialize (IH (fun c' Hc' => Hlive c' (or_intror Hc'))).
  pose proof (Hlive c (or_introl eq_refl)) as Hc.
  unfold entries at 1, fetch_failed at 1, unpriced at 1.
  destruct (fetchWeather env http_get c) as [weather | e | ] eqn:F.
  - destruct (RunTime.calculateRates weather); cbn [List.length]; lia.
  - cbn [List.length]. lia.
  - exfalso. apply Hc. apply fetchWeather_pending. exact F.
Qed.

Lemma unpriced_spec (c : jsstring) :
  unpriced env http_get c = true <->
  exists weather,
    fetchWeather env http_get c = Fulfilled weather
    /\ cannot_be_priced weather.
Proof.
  unfold unpriced.
  destruct (fetchWeather env http_get c) as [weather | e | ].
  - destruct (RunTime.calculateRates weather) as [rates|e] eqn:R.
    + split; [discriminate|]. intros (v & [= <-] & H).
      apply calculateRates_throws in H. destruct H as [e E]. congruence.
    + split; [|reflexivity]. intros _. exists weather. split; [reflexivity|].
      apply calculateRates_throws. exists e. exact R.
  - split; [discriminate|]. intros (v & H & _). discriminate H.
  - split; [discriminate|]. intros (v & H & _). discriminate H.
Qed.

Lemma well_typed_is_priced (cs : list jsstring) :
  (forall c weather,
     In c cs -> fetchWeather env http_get c = Fulfilled weather ->
     as_WeatherData weather <> None) ->
  filter (unpriced env http_get) cs = [].
Proof.
  induction cs as [|c cs IH]; intros Htyped; [reflexivity|].
  cbn [filter].
  rewrite IH by (intros c' v Hc'; apply Htyped; right; exact Hc').
  assert (E : unpriced env http_get c = false); [|rewrite E; reflexivity].
  unfold unpriced.
  destruct (fetchWeather env http_get c) as [weather | e | ] eqn:F;
    try reflexivity.
  specialize (Htyped c weather (or_introl eq_refl) F).
  destruct (as_WeatherData weather) as [w|] eqn:A; [|congruence].
  rewrite (calculateRates_of_WeatherData _ _ A). reflexivity.
Qed.

End Aggregation.

(** C7, as the code has it. When each of the five requests ends or fails,
    the handler of [/api/rates] asks for the five cities one after the
    other, in the order of the list, and answers 200 with the quotes and the
    time and nothing else. It skips every city whose fetch fails, and also
    every city whose fetch succeeds with a value that [calculateRates]
    throws on: when [k] fetches fail and [j] fetched values cannot be
    priced, the answer holds [5 - k - j] quotes, in the order of the list.
    The values that cannot be priced are those without a string as
    [conditions] and those whose [temperature] or [humidity] cannot be
    converted to a number; when every fetched value is a [WeatherData]
    there is none, and the answer holds [5 - k] quotes. *)
Theorem api_rates_skips_failed_cities
  (env : option jsstring) (http_get : jsstring -> transport)
  (w0 : World) (k j : nat) :
  (forall c, In c cities -> http_get (weather_url env c) <> Stalled) ->
  List.length (filter (fetch_failed env http_get) cities) = k ->
  List.length (filter (unpriced env http_get) cities) = j ->
  exists (quotes_sent : list CityQuote) (w1 : World),
    api_rates env http_get w0
    = (Fulfilled {| status := 200;
                    body := {| quotes := quotes_sent;
                               generatedAt := clock w0 |} |},
       w1)
    /\ List.length quotes_sent = (5 - k - j)%nat
    /\ quotes_sent = flat_map (entries env http_get) cities
    /\ requested w1 = requested w0 ++ cities
    /\ (forall c,
          unpriced env http_get c = true <->
          exists weather,
            fetchWeather env http_get c = Fulfilled weather
            /\ ((forall s, field weather "conditions" <> VString s)
                \/ ToString_throws (field weather "temperature") = true
                \/ ToString_throws (field weather "humidity") = true))
    /\ ((forall c weather,
           In c cities -> fetchWeather env http_get c = Fulfilled weather ->
           as_WeatherData weather <> None) ->
        j = 0%nat /\ List.length quotes_sent = (5 - k)%nat).
Proof.
  intros Hlive Hk Hj.
  exists (flat_map (entries env http_get) cities).
  exists {| requested := requested w0 ++ cities; clock := clock w0 |}.
  assert (Hlen : List.length (flat_map (entries env http_get) cities)
                 = (5 - k - j)%nat).
  { pose proof (entries_count env http_get cities Hlive) as H.
    rewrite Hk, Hj in H. change (List.length cities) with 5%nat in H. lia. }
  split; [|split; [exact Hlen|split; [reflexivity|split; [reflexivity|split]]]].
  - unfold api_rates. unfold async_bind at 1.
    rewrite (loop_spec env http_get cities Hlive). reflexivity.
  - intros c. rewrite unpriced_spec. unfold cannot_be_priced.
    split; intros (weather & F & H); exists weather; (split; [exact F|]).
    + destruct (fetchWeather_fulfilled _ _ _ _ F) as [Hn Hu].
      destruct H as [H | [H | H]]; [contradiction | contradiction | exact H].
    + right. right. exact H.
  - intros Htyped.
    pose proof (well_typed_is_priced env http_get cities Htyped) as H.
    rewrite H in Hj. cbn [List.length] in Hj. subst j.
    split; [reflexivity|]. rewrite Hlen. lia.
Qed.

Lemma api_rates_skips_failed_cities_witness :
  exists quotes_sent w1,
    api_rates None two_down {| requested := []; clock := midnight |}
    = (Fulfilled {| status := 200;
                    body := {| quotes := quotes_sent;
                               generatedAt := midnight |} |},
       w1)
    /\ List.length quotes_sent = 2%nat
    /\ requested w1 = cities.
Proof.
  destruct (api_rates_skips_failed_cities None two_down
              {| requested := []; clock := midnight |} 2 1)
    as (qs & w1 & Hrun & Hlen & _ & Hreq & _).
  - intros c Hc. cbn [cities In] in Hc.
    decompose [or] Hc; subst; try contradiction; vm_compute; discriminate.
  - vm_compute. reflexivity.
  - vm_compute. reflexivity.
  - exists qs, w1. split; [exact Hrun|]. split; [exact Hlen | exact Hreq].
Defined.

(** C7 as the specification states it fails. When the weather service
    answers Tokyo with the body [{}], no fetch fails, [calculateRates]
    throws on the value fetched for Tokyo inside the same [try], and the
    answer holds four quotes, not five. *)
Lemma api_rates_skips_failed_cities_counterexample :
  filter (fetch_failed None empty_for_tokyo) cities = []
  /\ ~ quotes_all_but_the_failed_fetches None empty_for_tokyo.
Proof.
  split; [vm_compute; reflexivity|].
  intros H.
  destruct (H {| requested := []; clock := midnight |} 0%nat)
    as (answer & w1 & Hrun & Hlen); [vm_compute; reflexivity|].
  vm_compute in Hrun. injection Hrun as <- _.
  vm_compute in Hlen. discriminate Hlen.
Qed.

(** What the handler does in the two examples. *)
Example api_rates_examples :
  map quote_city
    (flat_map (entries None empty_for_tokyo) cities)
  = [VString (str "London"); VString (str "London");
     VString (str "London"); VString (str "London")]
  /\ map (unpriced None empty_for_tokyo) cities
     = [false; false; true; false; false]
  /\ List.length (flat_map (entries None two_down) cities) = 2%nat.
Proof. vm_compute. repeat split. Qed.

(** X23.  [calculateRates] on whatever value reaches it. It throws, and
    then a TypeError, exactly on [null], [undefined], a value without a
    string as [conditions], and a value whose [temperature] or [humidity]
    is an array or object whose conversion to a string throws. On every
    other value it converts [temperature] and [humidity] to numbers, as
    the comparisons do, and returns the quotes of the reading they make: a
    missing temperature counts as NaN, [null] as 0, a string as the number
    it writes. On a value of the declared type it is the typed function. *)
Theorem calculateRates_converts_what_it_is_given (weather : value) :
  ((exists e, RunTime.calculateRates weather = Throw e) <->
   cannot_be_priced weather)
  /\ (forall e, RunTime.calculateRates weather = Throw e -> e = TypeError)
  /\ (forall rates,
        RunTime.calculateRates weather = Ok rates ->
        exists conds t h,
          field weather "conditions" = VString conds
          /\ ToNumber (field weather "temperature") = Ok t
          /\ ToNumber (field weather "humidity") = Ok h
          /\ rates = calculateRates {| city := []; temperature := t;
                                       conditions := conds; humidity := h |})
  /\ (forall w,
        as_WeatherData weather = Some w ->
        RunTime.calculateRates weather = Ok (calculateRates w)).
Proof.
  split; [apply calculateRates_throws|].
  split; [apply calculateRates_throws_TypeError|].
  split; [|apply calculateRates_of_WeatherData].
  intros rates R.
  destruct (priced_is_an_object_or_primitive _ _ R) as [Hn Hu].
  rewrite calculateRates_at_run_time in R.
  rewrite !(Get_field weather) in R by assumption.
  destruct (field weather "conditions") as [ | | | | conds | | ];
    try discriminate R.
  destruct (ToNumber (field weather "temperature")) as [t|];
    [|discriminate R].
  destruct (ToNumber (field weather "humidity")) as [h|]; [|discriminate R].
  injection R as <-. exists conds, t, h. repeat split.
Qed.

Lemma calculateRates_converts_what_it_is_given_witness :
  exists conds t h,
    field loose_reading "conditions" = VString conds
    /\ ToNumber (field loose_reading "temperature") = Ok t
    /\ ToNumber (field loose_reading "humidity") = Ok h
    /\ map weatherAdjustment (calculateRates
         {| city := []; temperature := Num.int 90;
            conditions := str "Sunny"; humidity := S754_zero false |})
       = map weatherAdjustment
           (calculateRates {| city := []; temperature := t;
                              conditions := conds; humidity := h |}).
Proof.
  destruct (proj1 (proj2 (proj2
              (calculateRates_converts_what_it_is_given loose_reading)))
              (calculateRates
                 {| city := []; temperature := Num.int 90;
                    conditions := str "Sunny"; humidity := S754_zero false |}))
    as (conds & t & h & Hc & Ht & Hh & E).
  - vm_compute. reflexivity.
  - exists conds, t, h. rewrite <- E. repeat split; assumption.
Defined.

(* ================================================================= *)
(** ** The order of numbers *)

Lemma digits2_pos_bounds (m : positive) :
  2 ^ (Zpos (digits2_pos m) - 1) <= Zpos m < 2 ^ Zpos (digits2_pos m).
Proof.
  induction m as [m IH | m IH |]; cbn [digits2_pos].
  - rewrite Pos2Z.inj_succ.
    replace (Z.succ (Zpos (digits2_pos m)) - 1) with (Z.succ (Zpos (digits2_pos m) - 1)) by lia.
    rewrite !Z.pow_succ_r by lia. lia.
  - rewrite Pos2Z.inj_succ.
    replace (Z.succ (Zpos (digits2_pos m)) - 1) with (Z.succ (Zpos (digits2_pos m) - 1)) by lia.
    rewrite !Z.pow_succ_r by lia. lia.
  - cbn. lia.
Qed.

(** A valid finite number is subnormal, with the least exponent, or normal,
    with a mantissa of 53 bits. *)
Lemma bounded_cases (m : positive) (e : Z) :
  bounded Num.prec Num.emax m e = true ->
  -1074 <= e <= 971
  /\ Zpos m < 2 ^ 53
  /\ (e = -1074 \/ 2 ^ 52 <= Zpos m).
Proof.
  unfold bounded, canonical_mantissa, fexp, emin, Num.prec, Num.emax.
  rewrite andb_true_iff, Z.eqb_eq, Z.leb_le. intros [Hc He].
  pose proof (digits2_pos_bounds m) as [Hlo Hhi].
  set (d := Zpos (digits2_pos m)) in *.
  assert (Hd : 0 < d) by (subst d; lia).
  assert (Hcase : (d = 53 /\ -1074 <= e) \/ (e = -1074 /\ d <= 53)) by lia.
  split; [lia|]. split.
  - destruct Hcase as [[-> _] | [_ Hle]]; [exact Hhi|].
    eapply Z.lt_le_trans; [exact Hhi|]. apply Z.pow_le_mono_r; lia.
  - destruct Hcase as [[Hd53 _] | [-> _]]; [right | left; reflexivity].
    rewrite Hd53 in Hlo. exact Hlo.
Qed.

Lemma compare_mantissas (m1 m2 : positive) (e1 e2 : Z) :
  bounded Num.prec Num.emax m1 e1 = true ->
  bounded Num.prec Num.emax m2 e2 = true ->
  match e1 ?= e2 with
  | Lt => Lt
  | Gt => Gt
  | Eq => Pos.compare_cont Eq m1 m2
  end = (Zpos m1 * 2 ^ (e1 + 1074) ?= Zpos m2 * 2 ^ (e2 + 1074)).
Proof.
  intros H1 H2.
  destruct (bounded_cases _ _ H1) as (He1 & Hm1 & Hn1).
  destruct (bounded_cases _ _ H2) as (He2 & Hm2 & Hn2).
  assert (Hshift : forall ma mb ea eb,
             -1074 <= ea -> ea < eb -> Zpos ma < 2 ^ 53 -> 2 ^ 52 <= Zpos mb ->
             Zpos ma * 2 ^ (ea + 1074) < Zpos mb * 2 ^ (eb + 1074)).
  { intros ma mb ea eb Hea Hlt Hma Hmb.
    assert (Hpa : 0 < 2 ^ (ea + 1074)) by (apply Z.pow_pos_nonneg; lia).
    assert (Hpow : 2 * 2 ^ (ea + 1074) <= 2 ^ (eb + 1074)).
    { rewrite <- Z.pow_succ_r by lia. apply Z.pow_le_mono_r; lia. }
    change (2 ^ 53) with (2 * 2 ^ 52) in Hma.
    assert (H52 : 0 < 2 ^ 52) by reflexivity.
    nia. }
  destruct (Z.compare_spec e1 e2) as [-> | Hlt | Hgt].
  - change (Pos.compare_cont Eq m1 m2) with (Zpos m1 ?= Zpos m2).
    apply Zmult_compare_compat_r. apply Z.lt_gt. apply Z.pow_pos_nonneg; lia.
  - symmetry. apply Z.compare_lt_iff.
    apply Hshift; lia.
  - symmetry. apply Z.compare_gt_iff.
    apply Hshift; lia.
Qed.

(** On valid finite numbers the comparison of JavaScript is the order of
    the values. *)
Lemma SFcompare_scaled (x y : Num.number) :
  Num.valid x = true -> Num.valid y = true ->
  Num.is_finite x = true -> Num.is_finite y = true ->
  SFcompare x y = Some (scaled x ?= scaled y).
Proof.
  intros Vx Vy Fx Fy.
  destruct x as [sx | sx | | sx mx ex]; try discriminate Fx;
    destruct y as [sy | sy | | sy my ey]; try discriminate Fy;
    cbn [SFcompare scaled].
  - reflexivity.
  - assert (0 < Zpos my * 2 ^ (ey + 1074)).
    { destruct (bounded_cases _ _ Vy) as (He & _).
      apply Z.mul_pos_pos; [lia | apply Z.pow_pos_nonneg; lia]. }
    f_equal. symmetry. destruct sy; cbn [cond_Zopp].
    + apply Z.compare_gt_iff. lia.
    + apply Z.compare_lt_iff. lia.
  - assert (0 < Zpos mx * 2 ^ (ex + 1074)).
    { destruct (bounded_cases _ _ Vx) as (He & _).
      apply Z.mul_pos_pos; [lia | apply Z.pow_pos_nonneg; lia]. }
    f_equal. symmetry. destruct sx; cbn [cond_Zopp].
    + apply Z.compare_lt_iff. lia.
    + apply Z.compare_gt_iff. lia.
  - assert (Hx : 0 < Zpos mx * 2 ^ (ex + 1074)).
    { destruct (bounded_cases _ _ Vx) as (He & _).
      apply Z.mul_pos_pos; [lia | apply Z.pow_pos_nonneg; lia]. }
    assert (Hy : 0 < Zpos my * 2 ^ (ey + 1074)).
    { destruct (bounded_cases _ _ Vy) as (He & _).
      apply Z.mul_pos_pos; [lia | apply Z.pow_pos_nonneg; lia]. }
    f_equal. destruct sx, sy; cbn [cond_Zopp].
    + rewrite !Z.mul_opp_l, Z.compare_opp.
      rewrite (Z.compare_antisym (Zpos mx * 2 ^ (ex + 1074))).
      rewrite <- (compare_mantissas mx my ex ey Vx Vy).
      destruct (ex ?= ey); reflexivity.
    + symmetry. apply Z.compare_lt_iff. lia.
    + symmetry. apply Z.compare_gt_iff. lia.
    + apply (compare_mantissas mx my ex ey Vx Vy).
Qed.

Lemma to_Q_scaled (x : Num.number) (v : Q) :
  Num.valid x = true -> Num.to_Q x = Some v ->
  Qeq v (Qmake (scaled x) (Z.to_pos (2 ^ 1074))).
Proof.
  intros V H. destruct x as [s | s | | s m e]; try discriminate H.
  - injection H as <-. reflexivity.
  - cbn [Num.to_Q] in H. destruct (bounded_cases _ _ V) as (He & _).
    assert (P : 0 < 2 ^ 1074) by (apply Z.pow_pos_nonneg; lia).
    cbn [scaled]. unfold Qeq.
    destruct (0 <=? e) eqn:E; injection H as <-; cbn [Qnum Qden inject_Z].
    + apply Z.leb_le in E. rewrite Z2Pos.id by exact P.
      rewrite Z.pow_add_r by lia. ring.
    + apply Z.leb_gt in E.
      assert (P' : 0 < 2 ^ (- e)) by (apply Z.pow_pos_nonneg; lia).
      rewrite !Z2Pos.id by assumption.
      replace 1074 with ((e + 1074) + (- e)) at 1 by lia.
      rewrite Z.pow_add_r by lia. ring.
Qed.

(** The comparisons of the rules are comparisons of values. *)
Lemma compare_values (x y : Num.number) (vx vy : Q) :
  Num.valid x = true -> Num.valid y = true ->
  Num.to_Q x = Some vx -> Num.to_Q y = Some vy ->
  SFcompare x y = Some (Qcompare vx vy).
Proof.
  intros Vx Vy Hx Hy.
  rewrite SFcompare_scaled; try assumption.
  - f_equal.
    rewrite (Qcompare_comp _ _ (to_Q_scaled x vx Vx Hx) _ _ (to_Q_scaled y vy Vy Hy)).
    unfold Qcompare. cbn [Qnum Qden].
    apply Zmult_compare_compat_r. reflexivity.
  - destruct x; try discriminate Hx; reflexivity.
  - destruct y; try discriminate Hy; reflexivity.
Qed.

Lemma lt_value (x y : Num.number) (vx vy : Q) :
  Num.valid x = true -> Num.valid y = true ->
  Num.to_Q x = Some vx -> Num.to_Q y = Some vy ->
  Num.lt x y = true <-> (vx < vy)%Q.
Proof.
  intros Vx Vy Hx Hy. unfold Num.lt, SFltb.
  rewrite (compare_values x y vx vy Vx Vy Hx Hy), Qlt_alt.
  destruct (vx ?= vy)%Q; split; congruence.
Qed.

Lemma le_value (x y : Num.number) (vx vy : Q) :
  Num.valid x = true -> Num.valid y = true ->
  Num.to_Q x = Some vx -> Num.to_Q y = Some vy ->
  Num.le x y = true <-> (vx <= vy)%Q.
Proof.
  intros Vx Vy Hx Hy. unfold Num.le, SFleb.
  rewrite (compare_values x y vx vy Vx Vy Hx Hy), Qle_alt.
  destruct (vx ?= vy)%Q; split; congruence.
Qed.

Lemma compare_with_constant (x c : Num.number) (v vc k : Q) :
  Num.valid x = true -> Num.to_Q x = Some v ->
  Num.valid c = true -> Num.to_Q c = Some vc -> Qeq vc k ->
  (Num.lt x c = true <-> (v < k)%Q)
  /\ (Num.gt x c = true <-> (k < v)%Q)
  /\ (Num.le x c = true <-> (v <= k)%Q)
  /\ (Num.ge x c = true <-> (k <= v)%Q).
Proof.
  intros Vx Hx Vc Hc E. unfold Num.gt, Num.ge.
  fold (Num.lt c x). fold (Num.le c x).
  rewrite (lt_value x c v vc), (lt_value c x vc v),
    (le_value x c v vc), (le_value c x vc v) by assumption.
  rewrite E. tauto.
Qed.

(* ================================================================= *)
(** ** More on calculateRates *)

Lemma rules_of_calculateRates (w : WeatherData) :
  adjustment_of "Electricity" w
    = Some (electricity_adjustment (temperature w))
  /\ adjustment_of "Natural Gas" w = Some (gas_adjustment (temperature w))
  /\ adjustment_of "Water" w
     = Some (water_adjustment (temperature w) (humidity w)
               (toLowerCase (conditions w)))
  /\ adjustment_of "Solar Buyback" w
     = Some (solar_adjustment (toLowerCase (conditions w))).
Proof.
  unfold adjustment_of. name_rules.
  apply (f_equal fst) in Rule, Rule0, Rule1, Rule2.
  cbn [fst] in Rule, Rule0, Rule1, Rule2.
  repeat split.
  - transitivity (Some adjust); [reflexivity|]. f_equal. rewrite <- Rule.
    unfold electricity_adjustment. push_fst.
  - transitivity (Some adjust0); [reflexivity|]. f_equal. rewrite <- Rule0.
    unfold gas_adjustment. push_fst.
  - transitivity (Some adjust1); [reflexivity|]. f_equal. rewrite <- Rule1.
    unfold water_adjustment. push_fst.
  - transitivity (Some adjust2); [reflexivity|]. f_equal. rewrite <- Rule2.
    unfold solar_adjustment. push_fst.
Qed.

(** How a valid temperature answers the seven threshold tests of the rules:
    one row per band of the temperature scale, the last for NaN. *)
Lemma temperature_bands (t : Num.number) :
  Num.valid t = true ->
  In (Num.lt t (Num.int 32), Num.lt t (Num.int 40), Num.lt t (Num.int 50),
      Num.ge t (Num.int 65), Num.le t (Num.int 75),
      Num.gt t (Num.int 80), Num.gt t (Num.int 85))
    [ (true,  true,  true,  false, true,  false, false);
      (false, true,  true,  false, true,  false, false);
      (false, false, true,  false, true,  false, false);
      (false, false, false, false, true,  false, false);
      (false, false, false, true,  true,  false, false);
      (false, false, false, true,  false, false, false);
      (false, false, false, true,  false, true,  false);
      (false, false, false, true,  false, true,  true);
      (false, false, false, false, false, false, false) ].
Proof.
  intros V. destruct (Num.to_Q t) as [v|] eqn:T.
  - destruct (compare_with_constant _ (Num.int 32) v _ 32%Q V T eq_refl eq_refl
                ltac:(reflexivity)) as (L32 & _ & _ & _).
    destruct (compare_with_constant _ (Num.int 40) v _ 40%Q V T eq_refl eq_refl
                ltac:(reflexivity)) as (L40 & _ & _ & _).
    destruct (compare_with_constant _ (Num.int 50) v _ 50%Q V T eq_refl eq_refl
                ltac:(reflexivity)) as (L50 & _ & _ & _).
    destruct (compare_with_constant _ (Num.int 65) v _ 65%Q V T eq_refl eq_refl
                ltac:(reflexivity)) as (_ & _ & _ & G65).
    destruct (compare_with_constant _ (Num.int 75) v _ 75%Q V T eq_refl eq_refl
                ltac:(reflexivity)) as (_ & _ & L75 & _).
    destruct (compare_with_constant _ (Num.int 80) v _ 80%Q V T eq_refl eq_refl
                ltac:(reflexivity)) as (_ & G80 & _ & _).
    destruct (compare_with_constant _ (Num.int 85) v _ 85%Q V T eq_refl eq_refl
                ltac:(reflexivity)) as (_ & G85 & _ & _).
    decide_comparison L32; decide_comparison L40; try (exfalso; lra);
      decide_comparison L50; try (exfalso; lra);
      decide_comparison G65; try (exfalso; lra);
      decide_comparison L75; try (exfalso; lra);
      decide_comparison G80; try (exfalso; lra);
      decide_comparison G85; try (exfalso; lra).
    all: pick_member.
  - destruct t as [s | s | | s m e]; try discriminate T.
    + destruct s; vm_compute; tauto.
    + vm_compute; tauto.
Qed.

(** X1.  The rules of different utilities read the same temperature, so their
    outcomes are tied: the heat surcharge of Electricity and the drought
    surcharge of Water come only with the gas discount; the extreme-cold
    surcharge of gas comes only with the heating surcharge of Electricity,
    which in turn comes only with one of the two gas surcharges; and the
    mild-weather discount of Electricity comes only with gas at its base
    rate. *)
Theorem heat_and_cold_couple_the_utilities (w : WeatherData) :
  Num.valid (temperature w) = true ->
  (adjustment_of "Electricity" w = Some (Num.dec 4 2) ->
   adjustment_of "Natural Gas" w = Some (Num.neg (Num.dec 15 2)))
  /\ (adjustment_of "Water" w = Some (Num.dec 2 3) ->
      adjustment_of "Natural Gas" w = Some (Num.neg (Num.dec 15 2)))
  /\ (adjustment_of "Natural Gas" w = Some (Num.dec 45 2) ->
      adjustment_of "Electricity" w = Some (Num.dec 3 2))
  /\ (adjustment_of "Electricity" w = Some (Num.dec 3 2) ->
      adjustment_of "Natural Gas" w = Some (Num.dec 45 2)
      \/ adjustment_of "Natural Gas" w = Some (Num.dec 25 2))
  /\ (adjustment_of "Electricity" w = Some (Num.neg (Num.dec 2 2)) ->
      adjustment_of "Natural Gas" w = Some (Num.int 0)).
Proof.
  intros V.
  destruct (rules_of_calculateRates w) as (-> & -> & -> & _).
  unfold electricity_adjustment, gas_adjustment, water_adjustment.
  pose proof (temperature_bands (temperature w) V) as Band.
  in_each_band (temperature w) Band.
  all: destruct (Num.lt (humidity w) (Num.int 30));
    destruct (includes (toLowerCase (conditions w)) (str "rain"));
    cbn [andb].
  all: repeat split; intros E; try refute_constants;
    first [reflexivity | left; reflexivity | right; reflexivity].
Qed.

Lemma heat_and_cold_couple_the_utilities_witness :
  adjustment_of "Natural Gas" (reading 95 "sunny" 10 (str "phoenix"))
  = Some (Num.neg (Num.dec 15 2)).
Proof.
  apply (proj1 (heat_and_cold_couple_the_utilities
                  (reading 95 "sunny" 10 (str "phoenix")) eq_refl)).
  reflexivity.
Defined.

(** X2.  The Electricity adjustment as a function of the value [t] of the
    temperature, for every binary64 temperature that has one: 0.04 exactly
    above 85, 0.03 exactly below 40, -0.02 exactly from 65 to 75 with both
    ends, and none exactly on the two bands that are left, from 40 up to 65
    and above 75 up to 85. *)
Theorem electricity_bands (w : WeatherData) (t : Q) :
  Num.valid (temperature w) = true ->
  Num.to_Q (temperature w) = Some t ->
  (adjustment_of "Electricity" w = Some (Num.dec 4 2) <-> (85 < t)%Q)
  /\ (adjustment_of "Electricity" w = Some (Num.dec 3 2) <-> (t < 40)%Q)
  /\ (adjustment_of "Electricity" w = Some (Num.neg (Num.dec 2 2)) <->
      (65 <= t <= 75)%Q)
  /\ (adjustment_of "Electricity" w = Some (Num.int 0) <->
      (40 <= t < 65)%Q \/ (75 < t <= 85)%Q).
Proof.
  intros V T.
  destruct (rules_of_calculateRates w) as (-> & _).
  unfold electricity_adjustment.
  destruct (compare_with_constant _ (Num.int 85) t _ 85%Q V T eq_refl eq_refl
              ltac:(reflexivity)) as (_ & G85 & _ & _).
  destruct (compare_with_constant _ (Num.int 40) t _ 40%Q V T eq_refl eq_refl
              ltac:(reflexivity)) as (L40 & _ & _ & _).
  destruct (compare_with_constant _ (Num.int 65) t _ 65%Q V T eq_refl eq_refl
              ltac:(reflexivity)) as (_ & _ & _ & G65).
  destruct (compare_with_constant _ (Num.int 75) t _ 75%Q V T eq_refl eq_refl
              ltac:(reflexivity)) as (_ & _ & L75 & _).
  decide_comparison G85; decide_comparison L40; try (exfalso; lra);
    decide_comparison G65; try (exfalso; lra);
    decide_comparison L75; try (exfalso; lra); cbn [andb].
  all: constants_apart.
Qed.

Lemma electricity_bands_witness :
  adjustment_of "Electricity" (reading 86 "fog" 50 (str "cairo"))
  = Some (Num.dec 4 2).
Proof.
  apply (proj1 (electricity_bands (reading 86 "fog" 50 (str "cairo")) _
                  eq_refl eq_refl)).
  reflexivity.
Defined.

(** X3.  The Natural Gas adjustment as a function of the value [t] of the
    temperature: 0.45 exactly below 32, 0.25 exactly from 32 up to 50, -0.15
    exactly above 80, and none exactly from 50 to 80 with both ends. *)
Theorem gas_bands (w : WeatherData) (t : Q) :
  Num.valid (temperature w) = true ->
  Num.to_Q (temperature w) = Some t ->
  (adjustment_of "Natural Gas" w = Some (Num.dec 45 2) <-> (t < 32)%Q)
  /\ (adjustment_of "Natural Gas" w = Some (Num.dec 25 2) <->
      (32 <= t < 50)%Q)
  /\ (adjustment_of "Natural Gas" w = Some (Num.neg (Num.dec 15 2)) <->
      (80 < t)%Q)
  /\ (adjustment_of "Natural Gas" w = Some (Num.int 0) <-> (50 <= t <= 80)%Q).
Proof.
  intros V T.
  destruct (rules_of_calculateRates w) as (_ & -> & _).
  unfold gas_adjustment.
  destruct (compare_with_constant _ (Num.int 32) t _ 32%Q V T eq_refl eq_refl
              ltac:(reflexivity)) as (L32 & _ & _ & _).
  destruct (compare_with_constant _ (Num.int 50) t _ 50%Q V T eq_refl eq_refl
              ltac:(reflexivity)) as (L50 & _ & _ & _).
  destruct (compare_with_constant _ (Num.int 80) t _ 80%Q V T eq_refl eq_refl
              ltac:(reflexivity)) as (_ & G80 & _ & _).
  decide_comparison L32; decide_comparison L50; try (exfalso; lra);
    decide_comparison G80; try (exfalso; lra).
  all: constants_apart.
Qed.

Lemma gas_bands_witness :
  adjustment_of "Natural Gas" (reading 32 "snow" 70 (str "oslo"))
  = Some (Num.dec 25 2).
Proof.
  apply (proj1 (proj2 (gas_bands (reading 32 "snow" 70 (str "oslo")) _
                         eq_refl eq_refl))).
  split; [unfold Qle; simpl; lia | reflexivity].
Defined.

(** X4.  Temperatures that are no finite number: NaN fires no rule of
    Electricity, Natural Gas or drought; +Infinity is priced as heat,
    -Infinity as cold; a NaN humidity never gives the drought surcharge. *)
Theorem readings_that_are_not_finite
  (c conds : jsstring) (temp hum : Num.number) :
  let at_temp t := {| city := c; temperature := t;
                      conditions := conds; humidity := hum |} in
  let dry_nan := {| city := c; temperature := temp;
                    conditions := conds; humidity := S754_nan |} in
  (adjustment_of "Electricity" (at_temp S754_nan) = Some (Num.int 0)
   /\ adjustment_of "Natural Gas" (at_temp S754_nan) = Some (Num.int 0)
   /\ adjustment_of "Water" (at_temp S754_nan) <> Some (Num.dec 2 3))
  /\ (adjustment_of "Electricity" (at_temp (S754_infinity false))
      = Some (Num.dec 4 2)
      /\ adjustment_of "Natural Gas" (at_temp (S754_infinity false))
         = Some (Num.neg (Num.dec 15 2)))
  /\ (adjustment_of "Electricity" (at_temp (S754_infinity true))
      = Some (Num.dec 3 2)
      /\ adjustment_of "Natural Gas" (at_temp (S754_infinity true))
         = Some (Num.dec 45 2))
  /\ adjustment_of "Water" dry_nan <> Some (Num.dec 2 3).
Proof.
  cbv zeta.
  repeat match goal with
    | |- context [adjustment_of _ ?w] =>
        let R := fresh in
        pose proof (rules_of_calculateRates w) as R;
        destruct R as (R1 & R2 & R3 & _);
        rewrite ?R1, ?R2, ?R3; clear R1 R2 R3
    end.
  cbn [temperature humidity conditions].
  unfold electricity_adjustment, gas_adjustment, water_adjustment.
  change (Num.gt S754_nan (Num.int 80)) with false.
  change (Num.lt S754_nan (Num.int 30)) with false.
  rewrite !andb_false_r. cbn [andb].
  assert (Wet : Some (if includes (toLowerCase conds) (str "rain")
                      then Num.neg (Num.dec 1 3) else Num.int 0)
                <> Some (Num.dec 2 3)).
  { destruct (includes _ _); intros E; vm_compute in E; discriminate E. }
  repeat split; try reflexivity; exact Wet.
Qed.

(** X5.  The decision table of Solar Buyback: the first pair of keywords found
    in the lower-cased conditions decides, in the order sunny/clear,
    cloud/overcast, rain/storm, and the rate is the standard one exactly
    when none of the six occurs. *)
Theorem solar_decision_table (w : WeatherData) :
  let conds := toLowerCase (conditions w) in
  let sun := includes conds (str "sunny") || includes conds (str "clear") in
  let cloud := includes conds (str "cloud") || includes conds (str "overcast") in
  let rain := includes conds (str "rain") || includes conds (str "storm") in
  (adjustment_of "Solar Buyback" w = Some (Num.dec 3 2) <-> sun = true)
  /\ (adjustment_of "Solar Buyback" w = Some (Num.neg (Num.dec 2 2)) <->
      sun = false /\ cloud = true)
  /\ (adjustment_of "Solar Buyback" w = Some (Num.neg (Num.dec 4 2)) <->
      sun = false /\ cloud = false /\ rain = true)
  /\ (adjustment_of "Solar Buyback" w = Some (Num.int 0) <->
      sun = false /\ cloud = false /\ rain = false).
Proof.
  cbv zeta.
  destruct (rules_of_calculateRates w) as (_ & _ & _ & ->).
  unfold solar_adjustment.
  destruct (includes _ (str "sunny") || includes _ (str "clear"));
    destruct (includes _ (str "cloud") || includes _ (str "overcast"));
    destruct (includes _ (str "rain") || includes _ (str "storm")).
  all: repeat split; intros;
    try reflexivity;
    try match goal with
      | E : Some _ = Some _ |- _ => vm_compute in E; discriminate E
      | E : _ /\ _ |- _ => decompose [and] E; discriminate
      end; try discriminate.
Qed.

Lemma lower_unit_fixed (c : code_unit) :
  toLowerCase (lower_unit c) = lower_unit c.
Proof.
  unfold toLowerCase, lower_unit.
  destruct ((65 <=? c) && (c <=? 90))%N eqn:A.
  - apply andb_true_iff in A. destruct A as [A1 A2].
    apply N.leb_le in A1, A2. cbn [flat_map]. rewrite app_nil_r.
    unfold lower_unit.
    replace (c + 32 <=? 90)%N with false by (symmetry; apply N.leb_gt; lia).
    replace (192 <=? c + 32)%N with false by (symmetry; apply N.leb_gt; lia).
    rewrite andb_false_r. cbn [andb].
    replace (c + 32 =? 304)%N with false by (symmetry; apply N.eqb_neq; lia).
    replace (c + 32 =? 8490)%N with false by (symmetry; apply N.eqb_neq; lia).
    reflexivity.
  - destruct ((192 <=? c) && (c <=? 222) && negb (c =? 215))%N eqn:B.
    + apply andb_true_iff in B. destruct B as [B B3].
      apply andb_true_iff in B. destruct B as [B1 B2].
      apply N.leb_le in B1, B2. cbn [flat_map]. rewrite app_nil_r.
      unfold lower_unit.
      replace (c + 32 <=? 90)%N with false by (symmetry; apply N.leb_gt; lia).
      replace (c + 32 <=? 222)%N with false by (symmetry; apply N.leb_gt; lia).
      rewrite !andb_false_r. cbn [andb].
      replace (c + 32 =? 304)%N with false by (symmetry; apply N.eqb_neq; lia).
      replace (c + 32 =? 8490)%N with false by (symmetry; apply N.eqb_neq; lia).
      reflexivity.
    + destruct (c =? 304)%N eqn:C; [reflexivity|].
      destruct (c =? 8490)%N eqn:D; [reflexivity|].
      cbn [flat_map]. rewrite app_nil_r. unfold lower_unit.
      rewrite A, B, C, D. reflexivity.
Qed.

(** Lower-casing twice is lower-casing once. *)
Lemma toLowerCase_idempotent (s : jsstring) :
  toLowerCase (toLowerCase s) = toLowerCase s.
Proof.
  induction s as [|c s IH]; [reflexivity|].
  unfold toLowerCase in *. cbn [flat_map].
  rewrite flat_map_app, IH. f_equal. apply lower_unit_fixed.
Qed.

(** X6.  [calculateRates] reads the conditions only through their lower-cased
    form: two readings whose conditions differ by case alone get the same
    quotes, and lower-casing the conditions beforehand changes nothing. *)
Theorem case_of_conditions_is_ignored (w : WeatherData) :
  calculateRates (with_conditions w (toLowerCase (conditions w)))
  = calculateRates w
  /\ forall conds,
       toLowerCase conds = toLowerCase (conditions w) ->
       calculateRates (with_conditions w conds) = calculateRates w.
Proof.
  assert (H : forall conds,
             toLowerCase conds = toLowerCase (conditions w) ->
             calculateRates (with_conditions w conds) = calculateRates w).
  { intros conds E. unfold calculateRates, with_conditions.
    cbn [temperature conditions humidity]. rewrite E. reflexivity. }
  split; [|exact H].
  apply H. apply toLowerCase_idempotent.
Qed.

Lemma case_of_conditions_is_ignored_witness :
  calculateRates (reading 70 "HEAVY Rain" 60 (str "leeds"))
  = calculateRates (reading 70 "heavy rain" 60 (str "leeds")).
Proof.
  apply (proj2 (case_of_conditions_is_ignored
                  (reading 70 "heavy rain" 60 (str "leeds")))
           (str "HEAVY Rain")).
  reflexivity.
Defined.

Lemma price_list_rows (w : WeatherData) (q : UtilityRate) :
  In q (calculateRates w) -> In (row_of q) price_list.
Proof.
  unfold row_of. name_rules. intros H. each_quote H.
  - run_rule Rule; vm_compute; tauto.
  - run_rule Rule0; vm_compute; tauto.
  - run_rule Rule1; vm_compute; tauto.
  - run_rule Rule2; vm_compute; tauto.
Qed.

(** X7.  Whatever the reading, each quote of [calculateRates] is one of the
    fifteen rows of the price list: its utility, base rate, adjustment,
    adjusted rate and reason go together as one of the rules writes them. *)
Theorem quotes_come_from_the_price_list (w : WeatherData) (q : UtilityRate) :
  In q (calculateRates w) -> In (row_of q) price_list.
Proof. exact (price_list_rows w q). Qed.

Lemma quotes_come_from_the_price_list_witness :
  In (row_of drought_quote) price_list.
Proof.
  apply (quotes_come_from_the_price_list
           (reading 90 "sunny" 20 (str "phoenix"))).
  vm_compute. right; right; left; reflexivity.
Defined.

(** X8.  A quote is at the base rate exactly when its adjustment is zero, and
    exactly then its reason is one of the two standard ones. *)
Theorem standard_exactly_when_unadjusted (w : WeatherData) (q : UtilityRate) :
  In q (calculateRates w) ->
  (weatherAdjustment q = Num.int 0 <-> adjustedRate q = baseRate q)
  /\ (weatherAdjustment q = Num.int 0 <->
      reason q = str "Standard rate"
      \/ reason q = str "Standard buyback rate").
Proof.
  intros H. apply price_list_rows in H.
  unfold row_of in H.
  set (u := utility q) in *. set (b := baseRate q) in *.
  set (a := weatherAdjustment q) in *. set (r := adjustedRate q) in *.
  set (t := reason q) in *. clearbody u b a r t.
  each_row H.
  all: split; split; intros E;
    try (vm_compute in E; discriminate E);
    try reflexivity;
    try (destruct E as [E | E]; vm_compute in E; discriminate E);
    try (left; reflexivity); try (right; reflexivity).
Qed.

Lemma standard_exactly_when_unadjusted_witness :
  weatherAdjustment drought_quote = Num.int 0
  <-> adjustedRate drought_quote = baseRate drought_quote.
Proof.
  apply (standard_exactly_when_unadjusted
           (reading 90 "sunny" 20 (str "phoenix"))).
  vm_compute. right; right; left; reflexivity.
Defined.

(** X9.  Every adjusted rate is positive and lies between half and one and a
    half times the base rate. *)
Theorem adjusted_rate_within_half_of_base (w : WeatherData) (q : UtilityRate) :
  In q (calculateRates w) ->
  exists base adjusted : Q,
    Num.to_Q (baseRate q) = Some base
    /\ Num.to_Q (adjustedRate q) = Some adjusted
    /\ (0 < adjusted)%Q
    /\ (base * (1 # 2) <= adjusted <= base * (3 # 2))%Q.
Proof.
  intros H. apply price_list_rows in H.
  unfold row_of in H.
  set (u := utility q) in *. set (b := baseRate q) in *.
  set (a := weatherAdjustment q) in *. set (r := adjustedRate q) in *.
  set (t := reason q) in *. clearbody u b a r t.
  each_row H.
  all: do 2 eexists; split; [reflexivity|]; split; [reflexivity|].
  all: split; [reflexivity|]; split; unfold Qle; vm_compute; discriminate.
Qed.

Lemma adjusted_rate_within_half_of_base_witness :
  exists base adjusted : Q,
    Num.to_Q (baseRate drought_quote) = Some base
    /\ Num.to_Q (adjustedRate drought_quote) = Some adjusted
    /\ (0 < adjusted)%Q
    /\ (base * (1 # 2) <= adjusted <= base * (3 # 2))%Q.
Proof.
  apply (adjusted_rate_within_half_of_base
           (reading 90 "sunny" 20 (str "phoenix"))).
  vm_compute. right; right; left; reflexivity.
Defined.

(* ================================================================= *)
(** ** More on fetchWeather *)

Lemma fold_append (chunks : list jsstring) (data : jsstring) :
  fold_left (fun data chunk => data ++ chunk) chunks data
  = data ++ List.concat chunks.
Proof.
  revert data. induction chunks as [|chunk chunks IH]; intros data; cbn.
  - rewrite app_nil_r. reflexivity.
  - rewrite IH, app_assoc. reflexivity.
Qed.

Lemma received_concat (chunks : list jsstring) :
  received chunks = List.concat chunks.
Proof. unfold received. rewrite fold_append. reflexivity. Qed.

Lemma Buffer_toString_app_le (n : nat) :
  forall a b : Buffer,
    (List.length a <= n)%nat ->
    cut_short a = false ->
    Buffer_toString (a ++ b) = Buffer_toString a ++ Buffer_toString b.
Proof.
  induction n as [|n IH]; intros a b Hlen Hcut.
  - destruct a; [reflexivity | cbn in Hlen; lia].
  - assert (Again : forall x r,
               (List.length (x :: r) <= n)%nat ->
               cut_short (x :: r) = false ->
               Buffer_toString (x :: r ++ b)
               = Buffer_toString (x :: r) ++ Buffer_toString b)
      by (intros x r; apply (IH (x :: r) b)).
    destruct a as [|b0 r0]; [reflexivity|].
    cbn [List.length] in Hlen.
    cbn [app Buffer_toString cut_short] in Hcut |- *.
    destruct (b0 <? 128)%N.
    { rewrite (IH r0 b) by (lia || exact Hcut). reflexivity. }
    destruct (within 194 223 b0).
    { destruct r0 as [|b1 r1]; [discriminate Hcut|].
      cbn [List.length] in Hlen. cbn [app].
      destruct (continuation b1).
      - rewrite <- app_assoc. f_equal. apply IH; [lia | exact Hcut].
      - rewrite Again by (cbn [List.length]; lia || exact Hcut).
        reflexivity. }
    destruct (within 224 239 b0).
    { destruct r0 as [|b1 r1]; [discriminate Hcut|].
      cbn [List.length] in Hlen. cbn [app].
      destruct (second_byte b0 b1).
      2: { rewrite Again by (cbn [List.length]; lia || exact Hcut).
           reflexivity. }
      destruct r1 as [|b2 r2]; [discriminate Hcut|].
      cbn [List.length] in Hlen. cbn [app].
      destruct (continuation b2).
      - rewrite <- app_assoc. f_equal. apply IH; [lia | exact Hcut].
      - rewrite Again by (cbn [List.length]; lia || exact Hcut).
        reflexivity. }
    destruct (within 240 244 b0).
    { destruct r0 as [|b1 r1]; [discriminate Hcut|].
      cbn [List.length] in Hlen. cbn [app].
      destruct (second_byte b0 b1).
      2: { rewrite Again by (cbn [List.length]; lia || exact Hcut).
           reflexivity. }
      destruct r1 as [|b2 r2]; [discriminate Hcut|].
      cbn [List.length] in Hlen. cbn [app].
      destruct (continuation b2).
      2: { rewrite Again by (cbn [List.length]; lia || exact Hcut).
           reflexivity. }
      destruct r2 as [|b3 r3]; [discriminate Hcut|].
      cbn [List.length] in Hlen. cbn [app].
      destruct (continuation b3).
      - rewrite <- app_assoc. f_equal. apply IH; [lia | exact Hcut].
      - rewrite Again by (cbn [List.length]; lia || exact Hcut).
        reflexivity. }
    rewrite (IH r0 b) by (lia || exact Hcut). reflexivity.
Qed.

(** Decoding goes through a cut that falls between two characters. *)
Lemma Buffer_toString_app (a b : Buffer) :
  cut_short a = false ->
  Buffer_toString (a ++ b) = Buffer_toString a ++ Buffer_toString b.
Proof. apply (Buffer_toString_app_le (List.length a)). lia. Qed.

Lemma Buffer_toString_concat (buffers : list Buffer) :
  Forall (fun buffer => cut_short buffer = false) buffers ->
  List.concat (map Buffer_toString buffers)
  = Buffer_toString (List.concat buffers).
Proof.
  induction 1 as [|a buffers Ha _ IH]; [reflexivity|].
  cbn [map List.concat]. rewrite (Buffer_toString_app _ _ Ha), IH.
  reflexivity.
Qed.

(** X10.  Each chunk of the body is decoded on its own. When no chunk ends
    inside a character, the promise settles as it does for the body
    received in one piece; when a chunk does, it need not: the body
    [{"error":"é"}] rejects the promise with the message [é] in one piece,
    and with two replacement characters when cut within the [é]. *)
Theorem fetchWeather_decodes_chunk_by_chunk
  (env : option jsstring) (city : jsstring) :
  (forall (get1 get2 : jsstring -> transport) (buffers : list Buffer),
     get1 (weather_url env city) = response_of buffers ->
     get2 (weather_url env city) = response_of [List.concat buffers] ->
     Forall (fun buffer => cut_short buffer = false) buffers ->
     fetchWeather env get1 city = fetchWeather env get2 city)
  /\ fetchWeather env
       (fun _ => response_of [error_body_start ++ error_body_end]) city
     = Rejected (Error_new (VString [233%N]))
  /\ fetchWeather env
       (fun _ => response_of [error_body_start; error_body_end]) city
     = Rejected (Error_new (VString [replacement; replacement])).
Proof.
  split; [|split].
  - intros get1 get2 buffers H1 H2 Hwhole.
    rewrite (fetchWeather_delivered _ _ _ _ H1),
      (fetchWeather_delivered _ _ _ _ H2).
    rewrite !received_concat. cbn [map List.concat].
    rewrite ?app_nil_r.
    rewrite (Buffer_toString_concat _ Hwhole). reflexivity.
  - rewrite (fetchWeather_delivered env _ city
               (map Buffer_toString [error_body_start ++ error_body_end])
               eq_refl).
    vm_compute. reflexivity.
  - rewrite (fetchWeather_delivered env _ city
               (map Buffer_toString [error_body_start; error_body_end])
               eq_refl).
    vm_compute. reflexivity.
Qed.

Lemma fetchWeather_decodes_chunk_by_chunk_witness :
  fetchWeather None (fun _ => response_of [str "{"; [195; 169]%N; str "}"])
    (str "rome")
  = fetchWeather None (fun _ => response_of [str "{" ++ [195; 169]%N ++ str "}"])
      (str "rome").
Proof.
  apply (proj1 (fetchWeather_decodes_chunk_by_chunk None (str "rome"))
           _ _ [str "{"; [195; 169]%N; str "}"]).
  - reflexivity.
  - reflexivity.
  - repeat constructor.
Defined.

(** X11.  The promise does not check the shape of the body: a body that parses to
    a number, a string, a boolean or an array fulfils it, although no such
    value is a [WeatherData], and so does an object that lacks the fields. *)
Theorem fetchWeather_does_not_validate
  (env : option jsstring) (http_get : jsstring -> transport)
  (city : jsstring) (chunks : list jsstring) (v : value) :
  http_get (weather_url env city) = Delivered chunks ->
  JSON.parse (received chunks) = Ok v ->
  (is_primitive_or_array v = true ->
   fetchWeather env http_get city = Fulfilled v /\ as_WeatherData v = None)
  /\ (v = VObject [] ->
      fetchWeather env http_get city = Fulfilled v /\ as_WeatherData v = None).
Proof.
  intros Hget Hparse. rewrite (fetchWeather_delivered _ _ _ _ Hget).
  rewrite on_end_cases, Hparse. split.
  - destruct v; try discriminate; intros _; split; reflexivity.
  - intros ->. split; reflexivity.
Qed.

Lemma fetchWeather_does_not_validate_witness :
  fetchWeather None (always (str "[1, 2]")) (str "rome")
  = Fulfilled (VArray [VNumber (Num.int 1); VNumber (Num.int 2)])
  /\ as_WeatherData (VArray [VNumber (Num.int 1); VNumber (Num.int 2)]) = None.
Proof.
  refine (proj1 (fetchWeather_does_not_validate None (always (str "[1, 2]"))
                   (str "rome") [str "[1, 2]"] _ _ _) _).
  - reflexivity.
  - vm_compute. reflexivity.
  - reflexivity.
Defined.

(** X12.  [fetchWeather] has no timeout: the promise stays pending exactly
    when the request neither fails nor ends. When it is rejected, it is
    with the error of the transport, handed on as it is, with the one
    invalid-response error, or with an Error built from a truthy [error]
    property of the parsed body. When it is fulfilled, it is with the
    parsed body, which is never [null] nor [undefined]. *)
Theorem fetchWeather_settles
  (env : option jsstring) (http_get : jsstring -> transport) (city : jsstring) :
  match fetchWeather env http_get city with
  | Pending => http_get (weather_url env city) = Stalled
  | Rejected e =>
      http_get (weather_url env city) = Failed e
      \/ (exists chunks, http_get (weather_url env city) = Delivered chunks)
         /\ (e = InvalidResponseError
             \/ exists chunks v err,
                  http_get (weather_url env city) = Delivered chunks
                  /\ JSON.parse (received chunks) = Ok v
                  /\ Get v (str "error") = Ok err
                  /\ ToBoolean err = true
                  /\ e = Error_new err)
  | Fulfilled v =>
      v <> VNull /\ v <> VUndefined
      /\ exists chunks,
           http_get (weather_url env city) = Delivered chunks
           /\ JSON.parse (received chunks) = Ok v
  end
  /\ (http_get (weather_url env city) = Stalled ->
      fetchWeather env http_get city = Pending).
Proof.
  split; [|apply fetchWeather_pending].
  destruct (http_get (weather_url env city)) as [e | chunks | ] eqn:Hget.
  - rewrite (fetchWeather_transport_failure _ _ _ _ Hget). left. reflexivity.
  - rewrite (fetchWeather_delivered _ _ _ _ Hget), on_end_cases.
    destruct (JSON.parse (received chunks)) as [v|] eqn:P.
    2: { right. split; [eexists; reflexivity | left; reflexivity]. }
    destruct (Get v (str "error")) as [err|] eqn:G.
    2: { right. split; [eexists; reflexivity | left; reflexivity]. }
    destruct (ToBoolean err) eqn:B.
    + destruct (ToString_throws err).
      * right. split; [eexists; reflexivity | left; reflexivity].
      * right. split; [eexists; reflexivity|]. right.
        exists chunks, v, err. repeat split; assumption.
    + split; [intros ->; discriminate G|].
      split; [intros ->; discriminate G|].
      exists chunks. split; [reflexivity | exact P].
  - rewrite (proj2 (fetchWeather_pending env http_get city) Hget). reflexivity.
Qed.

Lemma fetchWeather_settles_witness :
  fetchWeather None (fun _ => Stalled) (str "rome") = Pending.
Proof.
  apply (proj2 (fetchWeather_settles None (fun _ => Stalled) (str "rome"))).
  reflexivity.
Defined.

(* ================================================================= *)
(** ** The other handlers of the rate service *)

(** X13.  GET /api/rates/:city makes one fetch, for the city of the
    request, and never throws. While the request neither fails nor ends
    it does not answer. Otherwise it answers 200 exactly when the fetch
    succeeds with a value [calculateRates] returns on, sending what it
    reads from that value, the rates and the time; and 404 exactly when the
    fetch fails or [calculateRates] throws, with the message of the error
    caught: the fallback text of the handler is sent for no error. *)
Theorem api_rates_city_answers
  (env : option jsstring) (http_get : jsstring -> transport)
  (Error_message : exn -> jsstring)
  (city_param : jsstring) (w0 : World) :
  let asked := {| requested := requested w0 ++ [city_param];
                  clock := clock w0 |} in
  let run := api_rates_city env http_get Error_message city_param w0 in
  (http_get (weather_url env city_param) = Stalled -> run = (Pending, asked))
  /\ (http_get (weather_url env city_param) <> Stalled ->
      exists answer,
        run = (Fulfilled answer, asked)
        /\ (status answer = 200 <->
            exists weather rates,
              fetchWeather env http_get city_param = Fulfilled weather
              /\ RunTime.calculateRates weather = Ok rates)
        /\ (status answer = 404 <->
            fetch_failed env http_get city_param = true
            \/ unpriced env http_get city_param = true)
        /\ match body answer with
           | inl q =>
               exists weather,
                 fetchWeather env http_get city_param = Fulfilled weather
                 /\ RunTime.calculateRates weather = Ok (rates q)
                 /\ rate_quote_city q = field weather "city"
                 /\ rate_quote_weather q
                    = {| quoted_temperature := field weather "temperature";
                         quoted_conditions := field weather "conditions";
                         quoted_humidity := field weather "humidity" |}
                 /\ rate_quote_generatedAt q = clock w0
                 /\ validFor q = str "1 hour"
           | inr failure =>
               failure_error failure = str "Could not generate rate quote"
               /\ exists e,
                    failure_message failure = Error_message e
                    /\ (fetchWeather env http_get city_param = Rejected e
                        \/ e = TypeError
                           /\ unpriced env http_get city_param = true)
           end).
Proof.
  cbv zeta.
  unfold api_rates_city, try_catch, async_bind, await_fetchWeather,
    fetch_failed, unpriced, eval, run, resolve.
  destruct (fetchWeather env http_get city_param) as [weather | e | ] eqn:F.
  - split; [intros H; apply fetchWeather_pending in H; congruence|]. intros _.
    destruct (RunTime.calculateRates weather) as [rates|e] eqn:R;
      cbv beta iota.
    + destruct (priced_is_an_object_or_primitive _ _ R) as [Hn Hu].
      rewrite (Get_field weather "city"), (Get_field weather "temperature"),
        (Get_field weather "conditions"), (Get_field weather "humidity")
        by assumption.
      eexists. split; [reflexivity|]. cbn [status body].
      split; [|split].
      * split; [intros _; exists weather, rates; split; [reflexivity | exact R]
               | reflexivity].
      * split; [discriminate | intros [H | H]; discriminate H].
      * exists weather. cbn. repeat split. exact R.
    + eexists. split; [reflexivity|]. cbn [status body].
      split; [|split].
      * split; [discriminate|]. intros (v & r & [= <-] & H). congruence.
      * split; [intros _; right; reflexivity | reflexivity].
      * cbn. split; [reflexivity|]. exists e. split.
        -- destruct e; reflexivity.
        -- right. split; [|reflexivity].
           exact (calculateRates_throws_TypeError _ _ R).
  - split; [intros H; apply fetchWeather_pending in H; congruence|]. intros _.
    cbv beta iota. eexists. split; [reflexivity|]. cbn [status body].
    split; [|split].
    + split; [discriminate|]. intros (v & r & H & _). discriminate H.
    + split; [intros _; left; reflexivity | reflexivity].
    + cbn. split; [reflexivity|]. exists e. split.
      * destruct e; reflexivity.
      * left. reflexivity.
  - split; [reflexivity|]. intros H. exfalso. apply H.
    apply fetchWeather_pending. exact F.
Qed.

Lemma api_rates_city_answers_witness :
  exists answer w1,
    api_rates_city None empty_for_tokyo (fun _ => str "TypeError")
      (str "tokyo") {| requested := []; clock := midnight |}
    = (Fulfilled answer, w1)
    /\ status answer = 404.
Proof.
  destruct (proj2 (api_rates_city_answers None empty_for_tokyo
                     (fun _ => str "TypeError") (str "tokyo")
                     {| requested := []; clock := midnight |}))
    as (answer & Hrun & _ & H404 & _).
  - vm_compute. discriminate.
  - exists answer, {| requested := [] ++ [str "tokyo"]; clock := midnight |}.
    split; [exact Hrun|]. apply H404. right. vm_compute. reflexivity.
Defined.

(** X14.  When each of the five requests ends or fails, the aggregate is
    the single-city endpoint asked for each of the five cities in turn: its
    quotes are what the answers contribute, in order, an answer of 404
    contributing nothing. *)
Theorem api_rates_is_api_rates_city_for_each_city
  (env : option jsstring) (http_get : jsstring -> transport)
  (Error_message : exn -> jsstring) (w0 : World) :
  (forall c, In c cities -> http_get (weather_url env c) <> Stalled) ->
  exists answer w1,
    api_rates env http_get w0 = (Fulfilled answer, w1)
    /\ quotes (body answer)
       = flat_map
           (fun c => contribution
                       (fst (api_rates_city env http_get Error_message c w0)))
           cities.
Proof.
  intros Hlive. do 2 eexists. split.
  - unfold api_rates. unfold async_bind at 1.
    rewrite (loop_spec env http_get cities Hlive). reflexivity.
  - cbn [body quotes]. apply flat_map_ext. intros c.
    unfold entries, api_rates_city, try_catch, async_bind, await_fetchWeather,
      eval, run, resolve.
    destruct (fetchWeather env http_get c) as [weather | e | ] eqn:F;
      try reflexivity.
    destruct (RunTime.calculateRates weather) as [rates|e] eqn:R;
      cbv beta iota; [|reflexivity].
    destruct (priced_is_an_object_or_primitive _ _ R) as [Hn Hu].
    rewrite (Get_field weather "city"), (Get_field weather "temperature"),
      (Get_field weather "conditions"), (Get_field weather "humidity")
      by assumption.
    reflexivity.
Qed.

Lemma api_rates_is_api_rates_city_for_each_city_witness :
  exists answer w1,
    api_rates None two_down {| requested := []; clock := midnight |}
    = (Fulfilled answer, w1)
    /\ quotes (body answer)
       = flat_map
           (fun c => contribution
                       (fst (api_rates_city None two_down (fun _ => [])
                               c {| requested := []; clock := midnight |})))
           cities.
Proof.
  apply (api_rates_is_api_rates_city_for_each_city None two_down (fun _ => [])).
  intros c Hc. cbn [cities In] in Hc.
  decompose [or] Hc; subst; try contradiction; vm_compute; discriminate.
Defined.

(** X22.  The handler of [/api/rates] sets no time limit: when the request
    for one city neither ends nor fails, and those for the cities before
    it do, the handler has asked for the cities up to that one and never
    answers nor asks for the cities after it. *)
Theorem api_rates_waits_for_a_stalled_request
  (env : option jsstring) (http_get : jsstring -> transport) (w0 : World)
  (before after : list jsstring) (c : jsstring) :
  cities = before ++ c :: after ->
  (forall c', In c' before -> http_get (weather_url env c') <> Stalled) ->
  http_get (weather_url env c) = Stalled ->
  api_rates env http_get w0
  = (Pending,
     {| requested := requested w0 ++ before ++ [c]; clock := clock w0 |}).
Proof.
  intros Hcities Hlive Hstall.
  unfold api_rates. unfold async_bind at 1. rewrite Hcities.
  rewrite (loop_waits env http_get before after c Hlive Hstall). reflexivity.
Qed.

Lemma api_rates_waits_for_a_stalled_request_witness :
  api_rates None tokyo_stalls {| requested := []; clock := midnight |}
  = (Pending,
     {| requested := [str "new-york"; str "london"; str "tokyo"];
        clock := midnight |}).
Proof.
  apply (api_rates_waits_for_a_stalled_request None tokyo_stalls
           {| requested := []; clock := midnight |}
           [str "new-york"; str "london"] [str "sydney"; str "paris"]
           (str "tokyo")).
  - reflexivity.
  - intros c Hc. cbn [In] in Hc.
    decompose [or] Hc; subst; try contradiction; vm_compute; discriminate.
  - vm_compute. reflexivity.
Defined.

(** X15.  The base-rate endpoint lists, in the order of the quotes, the base rate
    and unit every quote carries; but it names the utilities by the keys of
    the table, and no such key is the utility name of a quote. *)
Theorem api_rates_base_matches_the_quotes (w : WeatherData) (w0 : World) :
  exists answer,
    api_rates_base w0 = (Ok answer, w0)
    /\ status answer = 200
    /\ map (fun b => (entry_rate b, entry_unit b)) (base_rates (body answer))
       = map (fun q => (baseRate q, unit q)) (calculateRates w)
    /\ forall b q,
         In b (base_rates (body answer)) -> In q (calculateRates w) ->
         entry_utility b <> utility q.
Proof.
  eexists. split; [reflexivity|]. split; [reflexivity|]. split.
  - name_rules. reflexivity.
  - cbn [body api_rates_base base_rates map baseRates_entries].
    intros b q Hb Hq.
    destruct (calculateRates_shape w) as (q1 & q2 & q3 & q4 & E & U1 & U2 & U3 & U4).
    rewrite E in Hq. cbn [In] in Hb, Hq.
    destruct Hq as [<- | [<- | [<- | [<- | []]]]];
      rewrite ?U1, ?U2, ?U3, ?U4;
      destruct Hb as [<- | [<- | [<- | [<- | []]]]];
      cbn [entry_utility]; intros C; vm_compute in C; discriminate C.
Qed.

(* ================================================================= *)
(** ** The quotes service *)

Import QuoteService.

Lemma eqb_eq (s t : jsstring) : Str.eqb s t = true <-> s = t.
Proof.
  unfold Str.eqb. destruct (list_eq_dec N.eq_dec s t); split; congruence.
Qed.

Lemma filter_none {A} (f : A -> bool) (l : list A) :
  (forall x, In x l -> f x = false) -> filter f l = [].
Proof.
  induction l as [|x l IH]; intros H; [reflexivity|].
  cbn [filter]. rewrite (H x (or_introl eq_refl)).
  apply IH. intros y Hy. apply H. right. exact Hy.
Qed.

Lemma categories_are_lower_case :
  forallb (fun q => Str.eqb (toLowerCase (category q)) (category q)) quotes
  = true.
Proof. vm_compute. reflexivity. Qed.

Lemma api_quotes_members (c : code_unit) (rest : jsstring) (q : Quote) :
  In q (list_quotes (body (api_quotes (Some (c :: rest))))) <->
  In q quotes /\ category q = toLowerCase (c :: rest).
Proof.
  cbn [api_quotes body list_quotes]. rewrite filter_In, eqb_eq.
  split; intros [Hin E]; (split; [exact Hin|]); rewrite <- E;
    [symmetry|]; apply eqb_eq;
    exact (proj1 (forallb_forall _ _) categories_are_lower_case q Hin).
Qed.

Lemma Array_filter_total {A} (f : A -> bool) (array : list A) :
  Array_filter (fun x => Ok (f x)) array = Ok (filter f array).
Proof.
  induction array as [|x array IH]; [reflexivity|].
  cbn [Array_filter filter bind]. rewrite IH. cbn [bind].
  destruct (f x); reflexivity.
Qed.

(** On a category of the asserted type, a string or none, the handler at
    run time is the typed handler. *)
Lemma api_quotes_at_run_time (category_param : option jsstring) :
  RunTime.api_quotes (match category_param with
                      | Some s => VString s
                      | None => VUndefined
                      end)
  = Ok (api_quotes category_param).
Proof.
  destruct category_param as [[|c rest]|]; [reflexivity | | reflexivity].
  unfold RunTime.api_quotes. cbn [ToBoolean RunTime.call_toLowerCase bind].
  rewrite Array_filter_total. reflexivity.
Qed.

Lemma api_quotes_of_a_string (c : code_unit) (rest : jsstring) :
  let answer := api_quotes (Some (c :: rest)) in
  status answer = 200
  /\ total (body answer) = length_of (list_quotes (body answer))
  /\ ((forall q, In q quotes -> category q <> toLowerCase (c :: rest)) ->
      list_quotes (body answer) = [] /\ total (body answer) = Num.int 0).
Proof.
  cbv zeta. cbn [api_quotes status body total list_quotes].
  split; [reflexivity|]. split; [reflexivity|].
  intros Hnone.
  assert (E : filter (fun q => Str.eqb (toLowerCase (category q))
                                 (toLowerCase (c :: rest))) quotes = []).
  { apply filter_none. intros q Hin.
    destruct (Str.eqb _ _) eqn:E; [|reflexivity].
    apply eqb_eq in E. exfalso. apply (Hnone q Hin). rewrite <- E.
    symmetry. apply eqb_eq.
    exact (proj1 (forallb_forall _ _) categories_are_lower_case q Hin). }
  rewrite E. split; reflexivity.
Qed.

(** X16.  GET /api/quotes, for whatever the query holds as its category.
    A category that is truthy and no string, as the array of a repeated
    parameter is, makes the handler throw a TypeError. Otherwise it
    answers 200, the total is the number of quotes sent, and for a
    category that is a string with characters the quotes sent are exactly
    those of the table whose category is the lower-cased parameter, a
    category no quote has giving an empty list; any other category gives
    the whole table. *)
Theorem api_quotes_filters_by_category (asked : value) :
  match RunTime.api_quotes asked with
  | Throw e =>
      e = TypeError
      /\ ToBoolean asked = true /\ (forall s, asked <> VString s)
  | Ok answer =>
      (ToBoolean asked = false \/ exists s, asked = VString s)
      /\ status answer = 200
      /\ total (body answer) = length_of (list_quotes (body answer))
      /\ (forall q,
            In q (list_quotes (body answer)) <->
            In q quotes
            /\ match asked with
               | VString (c :: rest) => category q = toLowerCase (c :: rest)
               | _ => True
               end)
      /\ (forall c rest,
            asked = VString (c :: rest) ->
            (forall q, In q quotes -> category q <> toLowerCase (c :: rest)) ->
            list_quotes (body answer) = [] /\ total (body answer) = Num.int 0)
  end.
Proof.
  assert (Hall : forall v,
             ToBoolean v = false ->
             RunTime.api_quotes v = Ok (api_quotes None)).
  { intros v Hv. unfold RunTime.api_quotes. rewrite Hv. reflexivity. }
  assert (Hthrow : forall v,
             ToBoolean v = true -> (forall s, v <> VString s) ->
             RunTime.api_quotes v = Throw TypeError).
  { intros v Hv Hs. unfold RunTime.api_quotes. rewrite Hv.
    destruct v; try reflexivity. exfalso. exact (Hs s eq_refl). }
  destruct (ToBoolean asked) eqn:B.
  - destruct asked as [ | | b | x | s | elems | props];
      try (rewrite Hthrow by (exact B || discriminate);
           split; [reflexivity|]; split; [reflexivity | discriminate]).
    destruct s as [|c rest]; [discriminate B|].
    rewrite (api_quotes_at_run_time (Some (c :: rest))).
    destruct (api_quotes_of_a_string c rest) as (Hs & Ht & Hnone).
    split; [right; eexists; reflexivity|].
    split; [exact Hs|]. split; [exact Ht|]. split.
    + intros q. apply api_quotes_members.
    + intros c' rest' [= <- <-]. exact Hnone.
  - rewrite (Hall asked B).
    split; [left; reflexivity|].
    split; [reflexivity|]. split; [reflexivity|]. split.
    + intros q. cbn [api_quotes body list_quotes].
      destruct asked as [ | | b | x | [|c rest] | elems | props];
        try tauto. discriminate B.
    + intros c rest ->. discriminate B.
Qed.

Lemma api_quotes_filters_by_category_witness :
  RunTime.api_quotes (VArray [VString (str "quality"); VString (str "motivation")])
  = Throw TypeError
  /\ list_quotes (body (api_quotes (Some (str "Cooking")))) = [].
Proof.
  split.
  - pose proof (api_quotes_filters_by_category
                  (VArray [VString (str "quality");
                           VString (str "motivation")])) as H.
    destruct (RunTime.api_quotes _) as [answer|e].
    + destruct H as [[H | [s H]] _]; discriminate H.
    + destruct H as [-> _]. reflexivity.
  - pose proof (api_quotes_filters_by_category (VString (str "Cooking"))) as H.
    rewrite (api_quotes_at_run_time (Some (str "Cooking"))) in H.
    destruct H as (_ & _ & _ & _ & H).
    refine (proj1 (H _ _ eq_refl _)).
    unfold quotes. cbn [In]. intros q Hq.
    repeat destruct Hq as [<- | Hq];
      [intros E; vm_compute in E; discriminate E .. | contradiction Hq].
Defined.

(** X17.  The category is matched without regard to case, and an empty category
    is no filter at all: it gives the whole table, as no category does. *)
Theorem api_quotes_ignores_case_and_empty_category :
  (forall c1 c2 : jsstring,
     c1 <> [] -> c2 <> [] ->
     toLowerCase c1 = toLowerCase c2 ->
     api_quotes (Some c1) = api_quotes (Some c2))
  /\ api_quotes (Some []) = api_quotes None
  /\ list_quotes (body (api_quotes None)) = quotes
  /\ total (body (api_quotes None)) = Num.int 10.
Proof.
  split; [|repeat split].
  intros [|a c1] [|b c2] H1 H2 E; try congruence.
  cbn [api_quotes]. rewrite E. reflexivity.
Qed.

Lemma api_quotes_ignores_case_and_empty_category_witness :
  api_quotes (Some (str "Programming")) = api_quotes (Some (str "PROGRAMMING")).
Proof.
  apply (proj1 api_quotes_ignores_case_and_empty_category);
    [discriminate | discriminate | reflexivity].
Defined.

(** Strict equality with a finite number that is not zero is identity. *)
Lemma strict_equal_finite (s : bool) (m : positive) (e : Z) (x : Num.number) :
  strict_equal (S754_finite s m e) x = true <-> x = S754_finite s m e.
Proof.
  unfold strict_equal, SFeqb. split.
  - destruct x as [s' | s' | | s' m' e']; cbn [SFcompare];
      try (destruct s; discriminate); try (destruct s'; discriminate).
    intros H.
    assert (Hs : s = s') by (destruct s, s'; try reflexivity; discriminate H).
    subst s'.
    assert (Hc : (e ?= e') = Eq /\ PosDef.Pos.compare_cont Eq m m' = Eq).
    { destruct s; destruct (e ?= e'); try discriminate H;
        destruct (PosDef.Pos.compare_cont Eq m m'); try discriminate H;
        split; reflexivity. }
    destruct Hc as [He Hm]. apply Z.compare_eq in He.
    apply Pos.compare_eq in Hm. subst. reflexivity.
  - intros ->. cbn [SFcompare]. rewrite Z.compare_refl.
    change (Pos.compare_cont Eq m m) with (Pos.compare m m).
    rewrite Pos.compare_refl. destruct s; reflexivity.
Qed.

Lemma ids_are_finite :
  forallb (fun q => match id q with S754_finite _ _ _ => true | _ => false end)
    quotes = true.
Proof. reflexivity. Qed.

Lemma strict_equal_id (q : Quote) (x : Num.number) :
  In q quotes -> (strict_equal (id q) x = true <-> x = id q).
Proof.
  intros Hin.
  pose proof (proj1 (forallb_forall _ _) ids_are_finite q Hin) as F.
  cbn beta in F. destruct (id q); try discriminate F.
  apply strict_equal_finite.
Qed.

(** The first quote of the table with a given id is the only one. *)
Lemma find_own_id (q : Quote) :
  In q quotes -> find (fun q' => strict_equal (id q') (id q)) quotes = Some q.
Proof.
  unfold quotes. cbn [In].
  intros H. repeat destruct H as [<- | H]; [vm_compute; reflexivity .. | contradiction H].
Qed.

(** X18.  GET /api/quotes/:id answers 200 with a quote exactly when that quote is
    in the table and its id is the number [parseInt] reads from the
    parameter, and 404 "Quote not found" exactly when no quote has that id;
    it answers nothing else. *)
Theorem api_quotes_id_finds_by_parsed_id (id_param : jsstring) :
  (forall q,
     api_quotes_id id_param = found q <->
     In q quotes /\ parseInt id_param = id q)
  /\ (api_quotes_id id_param = not_found <->
      forall q, In q quotes -> parseInt id_param <> id q)
  /\ ((exists q, api_quotes_id id_param = found q)
      \/ api_quotes_id id_param = not_found).
Proof.
  unfold api_quotes_id, found, not_found.
  destruct (find (fun q => strict_equal (id q) (parseInt id_param)) quotes)
    as [q0|] eqn:F.
  - destruct (find_some _ _ F) as [Hin E].
    apply (strict_equal_id q0 _ Hin) in E.
    split; [|split].
    + intros q. split.
      * intros [= <-]. split; assumption.
      * intros [Hq Eq]. rewrite Eq in F. rewrite (find_own_id q Hq) in F.
        congruence.
    + split; [discriminate|]. intros H. exfalso. exact (H q0 Hin E).
    + left. exists q0. reflexivity.
  - split; [|split].
    + intros q. split; [discriminate|]. intros [Hq Eq]. exfalso.
      pose proof (find_none _ _ F q Hq) as N. cbn beta in N.
      rewrite Eq in N.
      assert (T : strict_equal (id q) (id q) = true)
        by (apply (strict_equal_id q _ Hq); reflexivity).
      congruence.
    + split; [|reflexivity]. intros _ q Hq Eq.
      pose proof (find_none _ _ F q Hq) as N. cbn beta in N.
      rewrite Eq in N.
      assert (T : strict_equal (id q) (id q) = true)
        by (apply (strict_equal_id q _ Hq); reflexivity).
      congruence.
    + right. reflexivity.
Qed.

Lemma api_quotes_id_finds_by_parsed_id_witness :
  api_quotes_id (str "11") = not_found
  /\ api_quotes_id (str "seven") = not_found.
Proof.
  split.
  - apply (proj2 (proj1 (proj2 (api_quotes_id_finds_by_parsed_id (str "11"))))).
    unfold quotes. cbn [In]. intros q H.
    repeat destruct H as [<- | H];
      [intros E; vm_compute in E; discriminate E .. | contradiction H].
  - apply (proj2 (proj1 (proj2 (api_quotes_id_finds_by_parsed_id (str "seven"))))).
    unfold quotes. cbn [In]. intros q H.
    repeat destruct H as [<- | H];
      [intros E; vm_compute in E; discriminate E .. | contradiction H].
Defined.

Lemma trim_start_white_space (ws s : jsstring) :
  Forall (fun c => is_StrWhiteSpaceChar c = true) ws ->
  trim_start (ws ++ s) = trim_start s.
Proof.
  induction 1 as [|c ws Hc _ IH]; [reflexivity|].
  cbn [app trim_start]. rewrite Hc. exact IH.
Qed.

Lemma leading_digits_app (radix : Z) (ds t : jsstring) :
  Forall (fun c => digit_value radix c <> None) ds ->
  match t with [] => True | c :: _ => digit_value radix c = None end ->
  forall count acc,
    leading_digits radix (ds ++ t) count acc
    = leading_digits radix ds count acc.
Proof.
  intros Hds Ht. induction Hds as [|d ds Hd _ IH]; intros count acc.
  - destruct t as [|c t]; [reflexivity|]. cbn. rewrite Ht. reflexivity.
  - cbn [app leading_digits]. destruct (digit_value radix d); [apply IH|].
    congruence.
Qed.

(** [parseInt] skips white space and a plus sign before the digits and
    ignores whatever follows them. *)
Lemma parseInt_lenient (ws ds t : jsstring) (d : code_unit) (plus : bool) :
  Forall (fun c => is_StrWhiteSpaceChar c = true) ws ->
  In d (str "123456789") ->
  Forall (fun c => digit_value 10 c <> None) ds ->
  no_digit_ahead t ->
  parseInt (ws ++ (if plus then str "+" else []) ++ (d :: ds) ++ t)
  = parseInt (d :: ds).
Proof.
  intros Hws Hd Hds Ht. unfold parseInt.
  rewrite (trim_start_white_space ws _ Hws).
  assert (Hall : Forall (fun c => digit_value 10 c <> None) (d :: ds)).
  { constructor; [|exact Hds].
    cbn in Hd. decompose [or] Hd; subst; try discriminate; contradiction. }
  pose proof (leading_digits_app 10 (d :: ds) t Hall Ht 0%nat 0) as L.
  cbn in Hd.
  destruct plus; decompose [or] Hd; subst; try contradiction;
    cbn [app trim_start is_StrWhiteSpaceChar str] in *;
    cbn -[leading_digits Num.int]; cbn [app] in L; rewrite L; reflexivity.
Qed.

(** X19.  Every quote of the table is found by its id written in decimal, also
    with white space or a plus sign before the digits and with anything
    that is no digit after them. *)
Theorem api_quotes_id_reads_the_leading_integer
  (n : nat) (q : Quote) (ws t : jsstring) (plus : bool) :
  nth_error quotes n = Some q ->
  Forall (fun c => is_StrWhiteSpaceChar c = true) ws ->
  no_digit_ahead t ->
  id q = Num.int (Z.of_nat (S n))
  /\ api_quotes_id (ws ++ (if plus then str "+" else []) ++ decimal (S n) ++ t)
     = found q.
Proof.
  intros Hn Hws Ht.
  assert (Hlt : (n < List.length quotes)%nat)
    by (apply nth_error_Some; congruence).
  change (List.length quotes) with 10%nat in Hlt.
  unfold api_quotes_id.
  do 10 (destruct n as [|n]; [
    unfold quotes in Hn; cbn [nth_error] in Hn; injection Hn as <-;
    split; [reflexivity|];
    match goal with
    | |- context [decimal ?k] =>
        let x := eval vm_compute in (decimal k) in
        change (decimal k) with x
    end;
    rewrite (parseInt_lenient ws _ t _ plus Hws);
    [ vm_compute; reflexivity
    | vm_compute; tauto
    | repeat constructor; discriminate
    | exact Ht ] |]).
  lia.
Qed.

Lemma api_quotes_id_reads_the_leading_integer_witness :
  api_quotes_id (str " +7th")
  = found {| id := Num.int 7;
             text := str "The best time to plant a tree was 20 years ago. The second best time is now.";
             author := str "Chinese Proverb";
             category := str "motivation" |}.
Proof.
  refine (proj2 (api_quotes_id_reads_the_leading_integer 6 _ (str " ")
                   (str "th") true _ _ _)).
  - reflexivity.
  - repeat constructor.
  - reflexivity.
Defined.

Lemma existsb_eqb (v : jsstring) (seen : list jsstring) :
  existsb (Str.eqb v) seen = true <-> In v seen.
Proof.
  rewrite existsb_exists. split.
  - intros [x [Hin E]]. apply eqb_eq in E. subst. exact Hin.
  - intros Hin. exists v. split; [exact Hin | apply eqb_eq; reflexivity].
Qed.

(** A set keeps each value once and forgets none. *)
Lemma Set_spread_from (values seen : list jsstring) :
  NoDup seen ->
  let result :=
    fold_left (fun seen v => if existsb (Str.eqb v) seen then seen
                             else seen ++ [v]) values seen in
  NoDup result /\ forall x, In x result <-> In x seen \/ In x values.
Proof.
  revert seen. induction values as [|v values IH]; intros seen Hnd; cbn.
  - split; [exact Hnd | tauto].
  - destruct (existsb (Str.eqb v) seen) eqn:E.
    + destruct (IH seen Hnd) as [N M]. split; [exact N|].
      intros x. rewrite M. apply existsb_eqb in E.
      split; [tauto|]. intros [H | [<- | H]]; tauto.
    + assert (Hv : ~ In v seen).
      { intros Hin. apply existsb_eqb in Hin. congruence. }
      assert (Hnd' : NoDup (seen ++ [v])).
      { apply NoDup_app; [exact Hnd | repeat constructor; intros [] | ].
        intros x Hx [<- | []]. exact (Hv Hx). }
      destruct (IH (seen ++ [v]) Hnd') as [N M]. split; [exact N|].
      intros x. rewrite M, in_app_iff. cbn [In]. tauto.
Qed.

Lemma Set_spread_spec (values : list jsstring) :
  NoDup (Set_spread values)
  /\ forall x, In x (Set_spread values) <-> In x values.
Proof.
  destruct (Set_spread_from values [] (NoDup_nil _)) as [N M].
  split; [exact N|]. intros x. rewrite (M x). cbn [In]. tauto.
Qed.

Lemma categories_are_not_empty :
  forallb (fun q => negb (Str.eqb (category q) [])) quotes = true.
Proof. reflexivity. Qed.

(** X20.  The category list and the category filter agree: the list names each
    category of the table once, and every quote of the table is returned by
    the filter for exactly one listed category, its own. *)
Theorem listed_categories_partition_the_quotes :
  let listed := categories (body api_quotes_categories_list) in
  NoDup listed
  /\ (forall c, In c listed <-> exists q, In q quotes /\ category q = c)
  /\ (forall q c,
        In q quotes -> In c listed ->
        (In q (list_quotes (body (api_quotes (Some c)))) <-> c = category q)).
Proof.
  cbv zeta. cbn [api_quotes_categories_list body categories].
  destruct (Set_spread_spec (map category quotes)) as [N M].
  split; [exact N|]. split.
  - intros c. rewrite M, in_map_iff. split; intros [q H]; exists q; tauto.
  - intros q c Hq Hc. apply M in Hc. apply in_map_iff in Hc.
    destruct Hc as (q' & <- & Hq').
    pose proof (proj1 (forallb_forall _ _) categories_are_not_empty q' Hq') as Ne.
    pose proof (proj1 (forallb_forall _ _) categories_are_lower_case q' Hq') as Lc.
    cbn beta in Ne, Lc. apply eqb_eq in Lc.
    destruct (category q') as [|a rest] eqn:C; [discriminate Ne|].
    rewrite api_quotes_members, Lc. split.
    + intros [_ E]. symmetry. exact E.
    + intros E. split; [exact Hq | symmetry; exact E].
Qed.

Lemma listed_categories_partition_the_quotes_witness :
  categories (body api_quotes_categories_list)
  = [str "motivation"; str "innovation"; str "programming";
     str "persistence"; str "quality"]
  /\ forall q, nth_error quotes 3 = Some q ->
       In q (list_quotes (body (api_quotes (Some (str "programming"))))).
Proof.
  split; [reflexivity|].
  intros q Hq.
  apply (proj2 (proj2 listed_categories_partition_the_quotes) q
           (str "programming")).
  - apply (nth_error_In _ _ Hq).
  - vm_compute. tauto.
  - injection Hq as <-. reflexivity.
Defined.

(* ================================================================= *)
(** ** Rounding, and the random quote *)

Lemma iter_pos_nat {A} (f : A -> A) (p : positive) (x : A) :
  SpecFloat.iter_pos f p x = Nat.iter (Pos.to_nat p) f x.
Proof.
  revert x. induction p as [p IH | p IH |]; intros x; cbn [SpecFloat.iter_pos].
  - rewrite !IH, Pos2Nat.inj_xI, <- Nat.iter_add.
    rewrite <- Nat.iter_succ_r. f_equal. lia.
  - rewrite !IH, Pos2Nat.inj_xO, <- Nat.iter_add. f_equal. lia.
  - reflexivity.
Qed.

Lemma shr_1_step (x : shr_record) :
  0 <= shr_m x ->
  shr_m (shr_1 x) = shr_m x / 2 /\ shr_r (shr_1 x) = Z.odd (shr_m x).
Proof.
  destruct x as [m r s]. cbn [shr_m]. intros Hm.
  destruct m as [|[p|p|]|p]; try lia; cbn [shr_1 shr_m shr_r].
  - split; reflexivity.
  - split; [|reflexivity]. rewrite Pos2Z.inj_xI.
    apply Z.div_unique with 1; lia.
  - split; [|reflexivity]. rewrite Pos2Z.inj_xO.
    apply Z.div_unique with 0; lia.
  - split; reflexivity.
Qed.

(** Shifting a mantissa right by [k] steps leaves its quotient by [2^k] and
    remembers the last bit shifted out. *)
Lemma shr_steps (m : Z) (k : nat) :
  0 <= m ->
  let x := Nat.iter k shr_1 {| shr_m := m; shr_r := false; shr_s := false |} in
  shr_m x = m / 2 ^ Z.of_nat k
  /\ (shr_r x = true -> 2 * (shr_m x + 1) * 2 ^ Z.of_nat k <= 2 * m + 2 ^ Z.of_nat k).
Proof.
  intros Hm. induction k as [|k IH]; cbn zeta.
  - cbn. split; [rewrite Z.div_1_r; reflexivity | discriminate].
  - cbn zeta in IH. destruct IH as [IHm _].
    rewrite Nat.iter_succ.
    set (x := Nat.iter k shr_1 _) in *.
    assert (Hx : 0 <= shr_m x) by (rewrite IHm; apply Z.div_pos; lia).
    destruct (shr_1_step x Hx) as [Sm Sr]. rewrite Sm, Sr, IHm.
    rewrite Nat2Z.inj_succ, Z.pow_succ_r by lia.
    set (P := 2 ^ Z.of_nat k) in *.
    assert (HP : 0 < P) by (apply Z.pow_pos_nonneg; lia).
    split.
    + rewrite Z.div_div by lia. f_equal. lia.
    + intros Hodd.
      pose proof (Z.div_mod m P ltac:(lia)) as D.
      pose proof (Z.mod_pos_bound m P HP) as B.
      set (a := m / P) in *.
      apply Z.odd_spec in Hodd. destruct Hodd as [b Hb].
      assert (Ha : a / 2 = b) by (symmetry; apply Z.div_unique with 1; lia).
      rewrite Ha. nia.
Qed.

(** One rounding shift: the mantissa that comes out, scaled back, exceeds
    the one that went in by at most half a unit of the last place kept. *)
Lemma rounding_shift (m e n : Z) :
  0 <= m ->
  let '(mrs, e') := shr (start m) e n in
  let m1 := round_nearest_even (shr_m mrs) (loc_of_shr_record mrs) in
  let k := Z.max 0 n in
  e' = e + k /\ 0 <= m1 /\ 2 * m1 * 2 ^ k <= 2 * m + 2 ^ k.
Proof.
  intros Hm. destruct n as [|p|p]; cbn [shr start].
  - cbn. lia.
  - rewrite iter_pos_nat.
    destruct (shr_steps m (Pos.to_nat p) Hm) as [Sm Sr]. fold (start m) in *.
    set (x := Nat.iter (Pos.to_nat p) shr_1 (start m)) in *.
    rewrite positive_nat_Z in *.
    replace (Z.max 0 (Z.pos p)) with (Z.pos p) by lia.
    set (P := 2 ^ Z.pos p) in *.
    assert (HP : 0 < P) by (apply Z.pow_pos_nonneg; lia).
    assert (Hq : 0 <= shr_m x) by (rewrite Sm; apply Z.div_pos; lia).
    assert (Hfloor : shr_m x * P <= m).
    { rewrite Sm. pose proof (Z.mul_div_le m P HP). lia. }
    split; [reflexivity|].
    destruct x as [q r s]. cbn [shr_m shr_r] in *.
    destruct r, s; cbn [loc_of_shr_record round_nearest_even].
    + specialize (Sr eq_refl). split; [lia | nia].
    + specialize (Sr eq_refl). destruct (Z.even q); split; try lia; nia.
    + split; [lia | nia].
    + split; [lia | nia].
  - cbn. lia.
Qed.

(** One exact shift: the mantissa that comes out, scaled back, does not
    exceed the one that went in. *)
Lemma exact_shift (m e n : Z) :
  0 <= m ->
  let '(mrs, e') := shr (start m) e n in
  let k := Z.max 0 n in
  e' = e + k /\ 0 <= shr_m mrs /\ shr_m mrs * 2 ^ k <= m.
Proof.
  intros Hm. destruct n as [|p|p]; cbn [shr start].
  - cbn. lia.
  - rewrite iter_pos_nat.
    destruct (shr_steps m (Pos.to_nat p) Hm) as [Sm _]. fold (start m) in *.
    set (x := Nat.iter (Pos.to_nat p) shr_1 (start m)) in *.
    rewrite positive_nat_Z in *.
    replace (Z.max 0 (Z.pos p)) with (Z.pos p) by lia.
    assert (HP : 0 < 2 ^ Z.pos p) by (apply Z.pow_pos_nonneg; lia).
    split; [reflexivity|]. rewrite Sm. split.
    + apply Z.div_pos; lia.
    + pose proof (Z.mul_div_le m (2 ^ Z.pos p) HP). lia.
  - cbn. lia.
Qed.

(** A positive product rounded to binary64: what comes out and how far it
    can lie above the product. *)
Lemma rounded_product (M E : Z) :
  0 < M ->
  exists m1 k1 k2,
    k1 = Z.max 0 (fexp Num.prec Num.emax (Zdigits2 M + E) - E)
    /\ 0 <= m1 /\ 2 * m1 * 2 ^ k1 <= 2 * M + 2 ^ k1
    /\ k2 = Z.max 0 (fexp Num.prec Num.emax (Zdigits2 m1 + (E + k1)) - (E + k1))
    /\ (binary_round_aux Num.prec Num.emax false M E loc_Exact = S754_zero false
        \/ (971 < E + k1 + k2
            /\ binary_round_aux Num.prec Num.emax false M E loc_Exact
               = S754_infinity false)
        \/ exists m2,
             binary_round_aux Num.prec Num.emax false M E loc_Exact
             = S754_finite false m2 (E + k1 + k2)
             /\ Zpos m2 * 2 ^ k2 <= m1).
Proof.
  intros HM. unfold binary_round_aux, shr_fexp.
  change (shr_record_of_loc M loc_Exact) with (start M).
  set (n1 := fexp Num.prec Num.emax (Zdigits2 M + E) - E).
  pose proof (rounding_shift M E n1 ltac:(lia)) as R1.
  destruct (shr (start M) E n1) as [mrs e']. cbn zeta in R1.
  set (m1 := round_nearest_even (shr_m mrs) (loc_of_shr_record mrs)) in *.
  destruct R1 as (-> & Hm1 & Hb1).
  set (k1 := Z.max 0 n1) in *.
  change (shr_record_of_loc m1 loc_Exact) with (start m1).
  set (n2 := fexp Num.prec Num.emax (Zdigits2 m1 + (E + k1)) - (E + k1)).
  pose proof (exact_shift m1 (E + k1) n2 Hm1) as R2.
  destruct (shr (start m1) (E + k1) n2) as [mrs2 e2]. cbn zeta in R2.
  destruct R2 as (-> & Hm2 & Hb2).
  exists m1, k1, (Z.max 0 n2).
  split; [reflexivity|]. split; [exact Hm1|]. split; [exact Hb1|].
  split; [reflexivity|].
  destruct (shr_m mrs2) as [|m2|m2] eqn:S2.
  - left. reflexivity.
  - change (Num.emax - Num.prec) with 971.
    destruct (E + k1 + Z.max 0 n2 <=? 971) eqn:L.
    + right. right. exists m2. split; [reflexivity | exact Hb2].
    + right. left. apply Z.leb_gt in L. split; [lia | reflexivity].
  - lia.
Qed.

Lemma Zdigits2_le (z k : Z) : 0 <= z < 2 ^ k -> 0 <= k -> Zdigits2 z <= k.
Proof.
  intros [Hz Hlt] Hk. destruct z as [|p|p]; cbn [Zdigits2]; try lia.
  pose proof (digits2_pos_bounds p) as [Hlo _].
  assert (H : 2 ^ (Z.pos (digits2_pos p) - 1) < 2 ^ k) by lia.
  apply Z.pow_lt_mono_r_iff in H; lia.
Qed.

Lemma ten : Num.int 10 = S754_finite false 5629499534213120 (-49).
Proof. reflexivity. Qed.

(** A valid number in [0, 1) times ten is a number in [0, 10). *)
Lemma ten_times_a_fraction (m : positive) (e : Z) :
  bounded Num.prec Num.emax m e = true ->
  Zpos m * 2 ^ (e + 1074) < 2 ^ 1074 ->
  Num.mul (S754_finite false m e) (Num.int 10) = S754_zero false
  \/ exists m2 e2,
       Num.mul (S754_finite false m e) (Num.int 10) = S754_finite false m2 e2
       /\ -1200 <= e2 <= 971
       /\ Zpos m2 * 2 ^ (e2 + 1200) < 10 * 2 ^ 1200.
Proof.
  intros V Hlt.
  destruct (bounded_cases _ _ V) as (He & Hm & _).
  rewrite ten. unfold Num.mul. cbn [SFmul xorb].
  set (M := Zpos (m * 5629499534213120)).
  assert (EM : M = Zpos m * 5629499534213120) by reflexivity.
  assert (HM : 0 < M) by lia.
  set (E := e + -49).
  destruct (rounded_product M E HM)
    as (m1 & k1 & k2 & Hk1 & Hm1 & Hb1 & Hk2 & Hres).
  (* the fraction is below one *)
  assert (Hneg : e < 0).
  { destruct (Z.lt_ge_cases e 0) as [|Hge]; [assumption|]. exfalso.
    assert (Hp : 2 ^ 1074 <= 2 ^ (e + 1074)) by (apply Z.pow_le_mono_r; lia).
    assert (Hq : 0 < 2 ^ 1074) by (apply Z.pow_pos_nonneg; lia).
    pose proof (Pos2Z.is_pos m) as Hpos.
    revert Hlt Hp Hq. generalize (2 ^ (e + 1074)), (2 ^ 1074).
    intros P Q Hlt Hp Hq.
    assert (1 * P <= Zpos m * P) by (apply Z.mul_le_mono_nonneg_r; lia). lia. }
  assert (Hfrac : Zpos m < 2 ^ (- e)).
  { replace 1074 with ((e + 1074) + (- e)) in Hlt at 2 by lia.
    rewrite (Z.pow_add_r 2 (e + 1074) (- e)) in Hlt by lia.
    assert (Hq : 0 < 2 ^ (e + 1074)) by (apply Z.pow_pos_nonneg; lia).
    revert Hlt Hq. generalize (2 ^ (e + 1074)), (2 ^ (- e)).
    intros P Q Hlt Hq.
    apply (Z.mul_lt_mono_pos_r P); [exact Hq | lia]. }
  (* the first shift *)
  assert (HdM : Zdigits2 M <= 106).
  { apply Zdigits2_le; [|lia]. split; [lia|].
    rewrite EM. change (2 ^ 106) with (2 ^ 53 * 2 ^ 53).
    assert (5629499534213120 < 2 ^ 53) by reflexivity. nia. }
  assert (HdM0 : 0 <= Zdigits2 M) by (subst M; cbn; lia).
  assert (Hk1b : 0 <= k1 <= 53).
  { subst k1. unfold fexp, emin, Num.prec, Num.emax. subst E. lia. }
  set (K1 := 2 ^ k1) in *.
  assert (HK1 : 0 < K1 <= 2 ^ 53).
  { split; [apply Z.pow_pos_nonneg; lia | apply Z.pow_le_mono_r; lia]. }
  (* the second shift *)
  assert (Hm1b : m1 < 2 ^ 107).
  { assert (M < 2 ^ 106).
    { rewrite EM. change (2 ^ 106) with (2 ^ 53 * 2 ^ 53).
      assert (5629499534213120 < 2 ^ 53) by reflexivity. nia. }
    change (2 ^ 107) with (2 * 2 ^ 106).
    assert (2 * m1 * 1 <= 2 * m1 * K1)
      by (apply Z.mul_le_mono_nonneg_l; lia).
    assert (K1 <= 2 ^ 106).
    { eapply Z.le_trans; [apply HK1|]. apply Z.pow_le_mono_r; lia. }
    lia. }
  assert (Hd1 : 0 <= Zdigits2 m1 <= 107).
  { split; [destruct m1; cbn; lia|]. apply Zdigits2_le; lia. }
  assert (Hk2b : 0 <= k2 <= 54).
  { subst k2. unfold fexp, emin, Num.prec, Num.emax. subst E. lia. }
  set (K2 := 2 ^ k2) in *.
  assert (HK2 : 0 < K2) by (apply Z.pow_pos_nonneg; lia).
  destruct Hres as [Z0 | [[Hover _] | (m2 & Hfin & Hb2)]].
  - left. exact Z0.
  - exfalso. subst E. lia.
  - right. exists m2, (E + k1 + k2). split; [exact Hfin|].
    split; [subst E; lia|].
    set (A := 2 ^ (e + 1151)).
    assert (HA : 0 < A) by (apply Z.pow_pos_nonneg; lia).
    set (F := 2 ^ (- e)) in *.
    assert (E1 : 2 ^ (E + k1 + k2 + 1200) = A * K1 * K2).
    { subst A K1 K2 E. rewrite <- !Z.pow_add_r by lia. f_equal. lia. }
    assert (E2 : 2 ^ 1200 = F * 2 ^ 49 * A).
    { subst A F. rewrite <- !Z.pow_add_r by lia. f_equal. lia. }
    rewrite E1, E2.
    assert (EM' : M = Zpos m * (10 * 2 ^ 49)) by (rewrite EM; reflexivity).
    assert (S1 : Zpos m2 * K2 * K1 <= m1 * K1)
      by (apply Z.mul_le_mono_nonneg_r; lia).
    assert (S2 : 2 * (Zpos m2 * K2 * K1) <= 2 * M + K1) by lia.
    assert (S3 : 2 * M + K1 < 20 * 2 ^ 49 * F).
    { rewrite EM'. change (2 ^ 53) with (16 * 2 ^ 49) in HK1.
      assert (0 < 2 ^ 49) by reflexivity.
      revert HK1 Hfrac. generalize (2 ^ 49) at 1 2 3. intros; nia. }
    assert (S4 : 2 * (Zpos m2 * K2 * K1) * A < 20 * 2 ^ 49 * F * A)
      by (apply Z.mul_lt_mono_pos_r; lia).
    lia.
Qed.

Lemma scaled_one : scaled (Num.int 1) = 2 ^ 1074.
Proof.
  change (Num.int 1) with (S754_finite false 4503599627370496 (-52)).
  cbn [scaled cond_Zopp]. change 4503599627370496 with (2 ^ 52).
  rewrite <- Z.pow_add_r by lia. reflexivity.
Qed.

(** X21.  GET /api/quotes/random always answers with a quote of the table:
    whatever number in [0, 1) [Math.random()] returns, the index computed
    from it is one of the table. *)
Theorem api_quotes_random_answers_with_a_quote (random : Num.number) :
  Num.valid random = true ->
  Num.ge random (Num.int 0) = true ->
  Num.lt random (Num.int 1) = true ->
  exists q,
    api_quotes_random random = {| status := 200; body := Some q |}
    /\ In q quotes.
Proof.
  intros V Hge Hlt. unfold api_quotes_random.
  change (length_of quotes) with (Num.int 10).
  destruct random as [s | s | | s m e].
  - destruct s; one_of_the_quotes.
  - destruct s; discriminate.
  - discriminate.
  - assert (Hs : s = false) by (destruct s; [discriminate Hge | reflexivity]).
    subst s.
    assert (Hfrac : Zpos m * 2 ^ (e + 1074) < 2 ^ 1074).
    { unfold Num.lt, SFltb in Hlt.
      rewrite (SFcompare_scaled _ (Num.int 1) V eq_refl eq_refl eq_refl) in Hlt.
      rewrite scaled_one in Hlt. cbn [scaled cond_Zopp] in Hlt.
      destruct (Z.compare_spec (Zpos m * 2 ^ (e + 1074)) (2 ^ 1074));
        try discriminate Hlt. assumption. }
    destruct (ten_times_a_fraction m e V Hfrac)
      as [-> | (m2 & e2 & -> & He2 & Hb)].
    + one_of_the_quotes.
    + unfold element, Math_floor.
      destruct (0 <=? e2) eqn:L.
      * apply Z.leb_le in L. cbn [array_index]. rewrite (proj2 (Z.leb_le _ _) L).
        set (v := Zpos m2 * 2 ^ e2).
        assert (Hv : 0 < v < 10).
        { assert (P : 0 < 2 ^ e2) by (apply Z.pow_pos_nonneg; lia).
          split; [subst v; lia|].
          rewrite Z.pow_add_r in Hb by lia.
          assert (Q : 0 < 2 ^ 1200) by (apply Z.pow_pos_nonneg; lia).
          apply (Z.mul_lt_mono_pos_r (2 ^ 1200)); [exact Q|]. subst v. lia. }
        clearbody v.
        assert (C : In v (map Z.of_nat (seq 1 9))) by (cbn; lia).
        cbn in C.
        decompose [or False] C; subst v; one_of_the_quotes.
      * apply Z.leb_gt in L. cbn [cond_Zopp].
        set (n := Zpos m2 / 2 ^ (- e2)).
        assert (Hn : 0 <= n < 10).
        { assert (P : 0 < 2 ^ (- e2)) by (apply Z.pow_pos_nonneg; lia).
          split; [apply Z.div_pos; lia|].
          apply Z.div_lt_upper_bound; [exact P|].
          replace 1200 with ((e2 + 1200) + (- e2)) in Hb at 2 by lia.
          rewrite (Z.pow_add_r 2 (e2 + 1200) (- e2)) in Hb by lia.
          assert (Q : 0 < 2 ^ (e2 + 1200)) by (apply Z.pow_pos_nonneg; lia).
          apply (Z.mul_lt_mono_pos_r (2 ^ (e2 + 1200))); [exact Q|]. lia. }
        clearbody n.
        assert (C : In n (map Z.of_nat (seq 0 10))) by (cbn; lia).
        cbn in C.
        decompose [or False] C; subst n; one_of_the_quotes.
Qed.

Lemma api_quotes_random_answers_with_a_quote_witness :
  exists q,
    api_quotes_random (Num.dec 73 2) = {| status := 200; body := Some q |}
    /\ In q quotes.
Proof.
  apply api_quotes_random_answers_with_a_quote; reflexivity.
Defined.
